(** * GUI_Enterprise_TI: the enrichment of a Quake result page

    A shallow embedding of [GUI_Enterprise_TI.py] (class [QuakeQuery]) and
    the properties of its record enrichment: the table display, the
    relational store and the spreadsheet export, with the DNS, HTTP and
    geolocation lookups they make.

    The network is a record of deterministic oracles ([World]); the program
    is written in a small monad that threads the trace of everything the
    program does to the outside (lookups, prints, database and file writes)
    and propagates Python exceptions. *)

From Stdlib Require Import ZArith List String Ascii Bool Lia Sorted.
Import ListNotations.

Open Scope string_scope.
Open Scope list_scope.
Open Scope Z_scope.

(* ================================================================== *)
(** ** Python values and string operations *)

(** A Python value that is either [None] or a [str]: what the two lookup
    columns of a row hold, and what a field of the ip-api JSON holds. *)
Inductive pyval : Type :=
| PyNone
| PyStr (s : string).

Definition pyval_eqb (a b : pyval) : bool :=
  match a, b with
  | PyNone, PyNone => true
  | PyStr s, PyStr t => String.eqb s t
  | _, _ => false
  end.

(** Python truth value: [None] and the empty string are false. *)
Definition py_truthy (v : pyval) : bool :=
  match v with
  | PyNone => false
  | PyStr s => negb (String.eqb s "")
  end.

(** [a or b]. *)
Definition py_or (a b : pyval) : pyval :=
  if py_truthy a then a else b.

(** [str.lower] on one character.  A character is a code point below 256
    (header values reach the program decoded that way); the upper-case
    ones are A-Z and the accented capitals 192-222 without the
    multiplication sign 215. *)
Definition lower_char (c : ascii) : ascii :=
  let n := N_of_ascii c in
  if (((65 <=? n) && (n <=? 90)) ||
      ((192 <=? n) && (n <=? 222) && negb (n =? 215)))%N
  then ascii_of_N (n + 32)
  else c.

Fixpoint lower (s : string) : string :=
  match s with
  | EmptyString => EmptyString
  | String c t => String (lower_char c) (lower t)
  end.

(** [s.startswith(p)]. *)
Fixpoint startswith (p s : string) : bool :=
  match p, s with
  | EmptyString, _ => true
  | String a p', String b s' => Ascii.eqb a b && startswith p' s'
  | String _ _, EmptyString => false
  end.

(** [needle in hay] on strings. *)
Fixpoint str_in (needle hay : string) : bool :=
  startswith needle hay ||
  match hay with
  | EmptyString => false
  | String _ t => str_in needle t
  end.

(** [s.replace(old, new)] for a one-character [old]. *)
Fixpoint str_replace (old : ascii) (new : string) (s : string) : string :=
  match s with
  | EmptyString => EmptyString
  | String c t =>
      if Ascii.eqb c old then (new ++ str_replace old new t)%string
      else String c (str_replace old new t)
  end.

(** The double quote character. *)
Definition dquote : ascii := ascii_of_nat 34.

(** [s.endswith("/")]. *)
Fixpoint ends_with_slash (s : string) : bool :=
  match s with
  | EmptyString => false
  | String c EmptyString => Ascii.eqb c "/"
  | String _ t => ends_with_slash t
  end.

(** [os.path.join(a, b)] on POSIX. *)
Definition os_path_join (a b : string) : string :=
  if startswith "/" b then b
  else if String.eqb a "" || ends_with_slash a then (a ++ b)%string
  else (a ++ "/" ++ b)%string.

(** [d[key]] on a dict with string keys, [None] when the key is missing. *)
Fixpoint dict_lookup {V : Type} (d : list (string * V)) (key : string) : option V :=
  match d with
  | [] => None
  | (k, v) :: r => if String.eqb k key then Some v else dict_lookup r key
  end.

(* ================================================================== *)
(** ** The data of a result page *)

(** [item["service"]["http"]]. *)
Record http_block : Type := { host : string }.

(** [item["service"]]: the [http] block may be missing. *)
Record service_block : Type := { http : option http_block }.

(** One element of [api_response["data"]]. *)
Record item : Type := {
  service : service_block;
  ip : string;
  port : Z
}.

(** [api_response["meta"]["pagination"]]. *)
Record pagination : Type := {
  page_index : Z;
  page_size : Z;
  total : Z
}.

Record api_response : Type := {
  meta_pagination : pagination;
  data : list item
}.

(** [if "http" in item["service"]]. *)
Definition has_http (it : item) : bool :=
  match http (service it) with
  | Some _ => true
  | None => false
  end.

(** A row of six cells, under the headers
    序号, 地址, IP, 端口, IP位置, CDN服务商 that the table and the
    spreadsheet share. *)
Record row : Type := {
  r_index : Z;
  r_hostname : string;
  r_ip : string;
  r_port : Z;
  r_location : pyval;
  r_cdn : pyval
}.

(** A row of the [quake_results] table: hostname, ip, port. *)
Definition db_row : Type := (string * string * Z)%type.

(* ================================================================== *)
(** ** Exceptions *)

(** What [resolver.resolve] raises. *)
Inductive dns_failure : Type :=
| NXDOMAIN
| NoAnswer
| NoNameservers
| LifetimeTimeout
| EmptyLabel
| LabelTooLong.

(** The subclasses of [RequestException] that [requests.get] and
    [requests.post] raise, other than the [HTTPError] of
    [raise_for_status]. *)
Inductive request_failure : Type :=
| ConnectionError
| RequestTimeout
| InvalidURL
| TooManyRedirects.

(** What [requests.get] raises: a [RequestException], or the
    [LocationParseError] of urllib3, which requests lets through when the
    host of the URL has an empty or over-long label. *)
Inductive get_failure : Type :=
| RequestFailure (f : request_failure)
| LocationParseFailure.

(** The exceptions that travel through the program; all of them are
    subclasses of [Exception]. *)
Inductive exn : Type :=
| KeyError (key : string)
| AttributeError
| JSONDecodeError
| GeocoderError
| DNSException (f : dns_failure)
| RequestException (f : request_failure)
| HTTPError (status : Z)
| LocationParseError
| OSError.

Definition get_exn (f : get_failure) : exn :=
  match f with
  | RequestFailure f => RequestException f
  | LocationParseFailure => LocationParseError
  end.

(** [except (requests.exceptions.RequestException,
             requests.exceptions.HTTPError)]: [HTTPError] is a subclass
    of [RequestException]. *)
Definition is_request_exception (e : exn) : bool :=
  match e with
  | RequestException _ | HTTPError _ => true
  | _ => false
  end.

(** [except Exception]. *)
Definition is_exception (e : exn) : bool := true.

(* ================================================================== *)
(** ** The outside world *)

(** What [requests.get] returns.  [json] is [None] when [response.json()]
    raises or the body is not a JSON object. *)
Record response : Type := {
  status_code : Z;
  headers : list (string * string);
  json : option (list (string * pyval))
}.

(** What [requests.post] to the search service returns; [sr_json] is
    [None] when [json.loads(response.text)] raises. *)
Record search_response : Type := {
  sr_status_code : Z;
  sr_json : option api_response
}.

Record search_payload : Type := {
  p_query : string;
  p_start : string;
  p_size : string
}.

Record World : Type := {
  (** [dns.resolver.Resolver().resolve(hostname, 'A')]: the addresses of
      the answers, or the exception raised. *)
  resolver_resolve : string -> dns_failure + list string;
  (** [requests.get(url)] and [requests.get(url, timeout=5)]. *)
  requests_get : string -> option Z -> get_failure + response;
  (** [requests.post(url, headers={"X-QuakeToken": key}, json=payload)]. *)
  requests_post : string -> string -> search_payload -> request_failure + search_response;
  (** [Nominatim.reverse(ip, language="zh-CN")]: raises, returns [None],
      or returns a location with its [address]. *)
  geolocator_reverse : string -> exn + option string;
  (** [os.getcwd()]. *)
  getcwd : string;
  (** [df.to_excel(file_path, ...)] raises [OSError]: the directory of
      [file_path] is missing, or the file cannot be written. *)
  to_excel_fails : string -> bool;
  (** A host that urllib3 refuses for its labels is a name that
      dnspython refuses too: [resolve] raises ([EmptyLabel],
      [LabelTooLong]) before it sends a query. *)
  label_refused : forall hostname timeout,
    requests_get ("http://" ++ hostname)%string timeout = inl LocationParseFailure ->
    exists f, resolver_resolve hostname = inl f
}.

(** What the program prints. *)
Inductive message : Type :=
| MsgBlank
| MsgPagination (p : pagination)
| MsgQuery (query_term : string)
| MsgSkipWarning (index : Z)
| MsgTable (rows : list row)
| MsgQuerying
| MsgClear
| MsgGeopyError (ip_address : string) (e : exn)
| MsgIpApiError (ip_address : string) (e : exn)
| MsgApiError (e : exn)
| MsgExported (file_name : string)
| MsgUsage.

(** What the program does to the outside, in the order it does it. *)
Inductive event : Type :=
| EvResolve (hostname : string)
| EvGet (url : string) (timeout : option Z)
| EvPost (url : string) (key : string) (payload : search_payload)
| EvReverse (ip_address : string)
| EvPrint (m : message)
| EvDbConnect (db_name : string)
| EvCreateTable
| EvExecuteMany (rows : list db_row)
| EvCommit
| EvToExcel (file_path : string) (rows : list row).

Definition trace : Type := list event.

(* ================================================================== *)
(** ** The monad: a trace and exceptions *)

Definition M (A : Type) : Type := trace -> (exn + A) * trace.

Definition ret {A} (a : A) : M A := fun tr => (inr a, tr).

Definition bind {A B} (m : M A) (k : A -> M B) : M B :=
  fun tr =>
    match m tr with
    | (inr a, tr') => k a tr'
    | (inl e, tr') => (inl e, tr')
    end.

Definition raise {A} (e : exn) : M A := fun tr => (inl e, tr).

Definition emit (ev : event) : M unit := fun tr => (inr tt, tr ++ [ev]).

(** [try: body / except <catches> as e: handler e]. *)
Definition try_except {A} (body : M A) (catches : exn -> bool)
           (handler : exn -> M A) : M A :=
  fun tr =>
    match body tr with
    | (inl e, tr') => if catches e then handler e tr' else (inl e, tr')
    | r => r
    end.

Notation "x <- m ;; k" := (bind m (fun x => k))
  (at level 61, m at next level, right associativity).
Notation "m ;; k" := (bind m (fun _ => k))
  (at level 61, right associativity).

Definition print (m : message) : M unit := emit (EvPrint m).

(** [m] returns (or raises) [r] after doing [evs], from any trace. *)
Definition runs_to {A} (m : M A) (r : exn + A) (evs : list event) : Prop :=
  forall tr, m tr = (r, tr ++ evs).

(* ================================================================== *)
(** ** The program *)

(** [COMMON_CDN_NAMES]. *)
Definition COMMON_CDN_NAMES : list string :=
  ["cloudflare"; "akamai"; "fastly"; "maxcdn"; "cloudfront"; "azure cdn";
   "google cloud cdn"; "stackpath"; "limelight"; "incapsula"].

(** The literal "未知" that the table shows in place of a value. *)
Definition UNKNOWN_LABEL : string := "未知".

(** [response.headers.get(name, default)]: header names compare without
    regard to letter case. *)
Fixpoint headers_get (hs : list (string * string)) (name default : string) : string :=
  match hs with
  | [] => default
  | (k, v) :: r =>
      if String.eqb (lower k) (lower name) then v else headers_get r name default
  end.

(** [response.raise_for_status()] of requests: an [HTTPError] for the
    client and server error statuses, 400 to 599, and nothing otherwise. *)
Definition raise_for_status (status : Z) : M unit :=
  if (400 <=? status) && (status <? 600) then raise (HTTPError status)
  else ret tt.

(** The loop of [identify_cdn_provider]:
    [for cdn_name in names: if cdn_name.lower() in server_header: return cdn_name]. *)
Fixpoint first_cdn_match (names : list string) (server_header : string) : option string :=
  match names with
  | [] => None
  | cdn_name :: rest =>
      if str_in (lower cdn_name) server_header then Some cdn_name
      else first_cdn_match rest server_header
  end.

(** The name of the spreadsheet, lines 220-221 of [export_to_excel]. *)
Definition query_filename (query_term : string) : string :=
  str_replace dquote "" (str_replace ":" "" (str_replace " " "_" query_term)).

Definition export_file_name (query_term : string) : string :=
  ("quake_results_" ++ query_filename query_term ++ ".xlsx")%string.

Definition probe_url (hostname : string) : string :=
  ("http://" ++ hostname)%string.

Definition ip_api_url (ip_address : string) : string :=
  ("http://ip-api.com/json/" ++ ip_address ++ "?lang=zh-CN")%string.

Definition quake_url : string :=
  "https://quake.360.cn/api/v3/search/quake_service".

(** [item["service"]["http"]["host"]]. *)
Definition item_host (it : item) : exn + string :=
  match http (service it) with
  | Some h => inr (host h)
  | None => inl (KeyError "http")
  end.

Definition lift {A} (r : exn + A) : M A :=
  match r with
  | inl e => raise e
  | inr a => ret a
  end.

(** The comprehension of [store_to_database]. *)
Fixpoint rows_to_insert (results : list item) : exn + list db_row :=
  match results with
  | [] => inr []
  | it :: rest =>
      match item_host it with
      | inl e => inl e
      | inr h =>
          match rows_to_insert rest with
          | inl e => inl e
          | inr rows => inr ((h, ip it, port it) :: rows)
          end
      end
  end.

(** The command line after parsing: [--search], [--size], [--page]. *)
Record args : Type := {
  search : option string;
  size : string;
  page : string
}.

Section QuakeQuery.

Variable w : World.
Variable api_key : string.

Definition resolve (hostname : string) : M (list string) :=
  fun tr =>
    (match resolver_resolve w hostname with
     | inl f => inl (DNSException f)
     | inr answers => inr answers
     end, tr ++ [EvResolve hostname]).

Definition get (url : string) (timeout : option Z) : M response :=
  fun tr =>
    (match requests_get w url timeout with
     | inl f => inl (get_exn f)
     | inr r => inr r
     end, tr ++ [EvGet url timeout]).

Definition post (url : string) (payload : search_payload) : M search_response :=
  fun tr =>
    (match requests_post w url api_key payload with
     | inl f => inl (RequestException f)
     | inr r => inr r
     end, tr ++ [EvPost url api_key payload]).

Definition reverse (ip_address : string) : M (option string) :=
  fun tr => (geolocator_reverse w ip_address, tr ++ [EvReverse ip_address]).

(** [df.to_excel(file_path, index=False, engine="openpyxl")]: the file is
    written, or [OSError] is raised and there is no file. *)
Definition to_excel (file_path : string) (rows : list row) : M unit :=
  fun tr =>
    if to_excel_fails w file_path then (inl OSError, tr)
    else (inr tt, tr ++ [EvToExcel file_path rows]).

(** [check_cdn_usage]: at least two A records. *)
Definition check_cdn_usage (hostname : string) : M bool :=
  ipv4_addresses <- resolve hostname ;;
  ret (2 <=? Z.of_nat (List.length ipv4_addresses)).

(** [check_domain_for_cdn]: more than one A record. *)
Definition check_domain_for_cdn (domain : string) : M bool :=
  ipv4_addresses <- resolve domain ;;
  ret (1 <? Z.of_nat (List.length ipv4_addresses)).

Definition connect_to_database (db_name : string) : M unit :=
  emit (EvDbConnect db_name) ;;
  emit EvCreateTable ;;
  emit EvCommit.

Definition store_to_database (results : list item) : M unit :=
  rows <- lift (rows_to_insert results) ;;
  emit (EvExecuteMany rows) ;;
  emit EvCommit.

Definition perform_search (query result_count start_page : string) : M api_response :=
  let payload := {| p_query := query; p_start := start_page; p_size := result_count |} in
  try_except
    (response <- post quake_url payload ;;
     raise_for_status (sr_status_code response) ;;
     match sr_json response with
     | Some page => ret page
     | None => raise JSONDecodeError
     end)
    is_request_exception
    (fun e => print (MsgApiError e) ;; raise e).

(** [identify_cdn_provider] (the class defines it twice, with the same
    body).  [PyNone] is the [return None] after the [try]. *)
Definition identify_cdn_provider (hostname : string) : M pyval :=
  let url := probe_url hostname in
  try_except
    (response <- get url (Some 5) ;;
     raise_for_status (status_code response) ;;
     let server_header := lower (headers_get (headers response) "Server" "") in
     match first_cdn_match COMMON_CDN_NAMES server_header with
     | Some cdn_name => ret (PyStr cdn_name)
     | None => ret PyNone
     end)
    is_request_exception
    (fun _ => ret PyNone).

Definition _get_ip_location_with_geopy (ip_address : string) : M pyval :=
  try_except
    (location <- reverse ip_address ;;
     match location with
     | Some address => ret (PyStr address)
     | None => raise AttributeError
     end)
    is_exception
    (fun e => print (MsgGeopyError ip_address e) ;; ret PyNone).

Definition _get_ip_location_with_ip_api (ip_address : string) : M pyval :=
  try_except
    (response <- get (ip_api_url ip_address) None ;;
     raise_for_status (status_code response) ;;
     data <- match json response with
             | Some d => ret d
             | None => raise JSONDecodeError
             end ;;
     status <- match dict_lookup data "status" with
               | Some v => ret v
               | None => raise (KeyError "status")
               end ;;
     if pyval_eqb status (PyStr "success") then
       match dict_lookup data "city" with
       | Some v => ret v
       | None => raise (KeyError "city")
       end
     else ret PyNone)
    is_exception
    (fun e => print (MsgIpApiError ip_address e) ;; ret PyNone).

Definition get_ip_location (ip_address : string) : M pyval :=
  print MsgQuerying ;;
  location <- _get_ip_location_with_ip_api ip_address ;;
  location <- match location with
              | PyNone => _get_ip_location_with_geopy ip_address
              | _ => ret location
              end ;;
  print MsgClear ;;
  ret location.

(** Lines 103-106 of [display_results]: the CDN cell of a table row. *)
Definition display_cdn_provider (hostname : string) : M pyval :=
  uses_cdn <- check_cdn_usage hostname ;;
  if uses_cdn then identify_cdn_provider hostname
  else ret (PyStr UNKNOWN_LABEL).

(** The body of the loop of [display_results], lines 100-120: the table
    after the item at position [index]. *)
Definition display_item (index : Z) (it : item) (table : list row) : M (list row) :=
  match http (service it) with
  | Some h =>
      let hostname := host h in
      cdn_provider <- display_cdn_provider hostname ;;
      let ip_address := ip it in
      location <- get_ip_location ip_address ;;
      ret (table ++ [{| r_index := index;
                        r_hostname := hostname;
                        r_ip := ip_address;
                        r_port := port it;
                        r_location := py_or location (PyStr UNKNOWN_LABEL);
                        r_cdn := cdn_provider |}])
  | None =>
      print (MsgSkipWarning index) ;;
      ret table
  end.

(** [for index, item in enumerate(api_response["data"], start=1)]. *)
Fixpoint display_loop (index : Z) (items : list item) (table : list row) : M (list row) :=
  match items with
  | [] => ret table
  | it :: rest =>
      table' <- display_item index it table ;;
      display_loop (index + 1) rest table'
  end.

Definition display_results (resp : api_response)
           (start_page result_count query_term : string) : M unit :=
  print MsgBlank ;;
  print (MsgPagination (meta_pagination resp)) ;;
  print (MsgQuery query_term) ;;
  table <- display_loop 1 (data resp) [] ;;
  print (MsgTable table).

(** One tuple of the comprehension of [export_to_excel], lines 207-214. *)
Definition export_item (index : Z) (it : item) : M row :=
  hostname <- lift (item_host it) ;;
  location <- get_ip_location (ip it) ;;
  hostname' <- lift (item_host it) ;;
  cdn_provider <- identify_cdn_provider hostname' ;;
  ret {| r_index := index + 1;
         r_hostname := hostname;
         r_ip := ip it;
         r_port := port it;
         r_location := location;
         r_cdn := cdn_provider |}.

(** [for index, item in enumerate(api_response["data"])]. *)
Fixpoint export_loop (index : Z) (items : list item) : M (list row) :=
  match items with
  | [] => ret []
  | it :: rest =>
      r <- export_item index it ;;
      rows <- export_loop (index + 1) rest ;;
      ret (r :: rows)
  end.

Definition export_to_excel (resp : api_response) (query_term : string) : M unit :=
  rows <- export_loop 0 (data resp) ;;
  let current_dir := getcwd w in
  let file_name := export_file_name query_term in
  let file_path := os_path_join current_dir file_name in
  to_excel file_path rows ;;
  print (MsgExported file_name).

Definition main (a : args) : M unit :=
  match search a with
  | Some query =>
      if String.eqb query "" then print MsgUsage
      else
        search_results <- perform_search query (size a) (page a) ;;
        display_results search_results (page a) (size a) query ;;
        connect_to_database "quake_results.db" ;;
        store_to_database (data search_results) ;;
        export_to_excel search_results query ;;
        print (MsgExported (export_file_name query))
  | None => print MsgUsage
  end.

End QuakeQuery.

(** [framed m]: what [m] returns and does is the same from every trace. *)
Definition framed {A} (m : M A) : Prop := exists r evs, runs_to m r evs.

(** [never_raises m]: moreover [m] returns, it does not raise. *)
Definition never_raises {A} (m : M A) : Prop := exists a evs, runs_to m (inr a) evs.

(** What [identify_cdn_provider] returns when the probe passed. *)
Definition header_verdict (resp : response) : pyval :=
  match first_cdn_match COMMON_CDN_NAMES
          (lower (headers_get (headers resp) "Server" "")) with
  | Some cdn_name => PyStr cdn_name
  | None => PyNone
  end.

(* ================================================================== *)
(** ** What the lookups answered *)

Section Answers.

Variable w : World.

(** The number of A records the resolver returned for [hostname]. *)
Definition multiplicity (hostname : string) : option Z :=
  match resolver_resolve w hostname with
  | inl _ => None
  | inr answers => Some (Z.of_nat (List.length answers))
  end.

(** The probe of [hostname] failed as the program sees it: [requests.get]
    raised, or [raise_for_status] did. *)
Definition probe_failed (hostname : string) : Prop :=
  match requests_get w (probe_url hostname) (Some 5) with
  | inl _ => True
  | inr resp => 400 <= status_code resp < 600
  end.

(** urllib3 refused the hostname of the probe: [requests.get] raised
    [LocationParseError]. *)
Definition probe_refused (hostname : string) : Prop :=
  requests_get w (probe_url hostname) (Some 5) = inl LocationParseFailure.

(** The probe of [hostname] returned [resp] and [raise_for_status] let it
    pass. *)
Definition probe_succeeded (hostname : string) (resp : response) : Prop :=
  requests_get w (probe_url hostname) (Some 5) = inr resp /\
  ~ (400 <= status_code resp < 600).

End Answers.

(* ================================================================== *)
(** ** What the geolocation providers answered *)

(** The primary provider succeeded with [city]: the request returned, the
    HTTP status is no error, the body is a JSON object whose [status] is
    the string success and whose [city] is the string [city]. *)
Definition primary_succeeded (w : World) (ip_address city : string) : Prop :=
  exists resp d,
    requests_get w (ip_api_url ip_address) None = inr resp /\
    ~ (400 <= status_code resp < 600) /\
    json resp = Some d /\
    dict_lookup d "status" = Some (PyStr "success") /\
    dict_lookup d "city" = Some (PyStr city).

(** The ways the primary provider fails. *)
Inductive primary_failure (w : World) (ip_address : string) : Prop :=
| network_error f :
    requests_get w (ip_api_url ip_address) None = inl f ->
    primary_failure w ip_address
| error_status resp :
    requests_get w (ip_api_url ip_address) None = inr resp ->
    400 <= status_code resp < 600 ->
    primary_failure w ip_address
| no_json_object resp :
    requests_get w (ip_api_url ip_address) None = inr resp ->
    json resp = None ->
    primary_failure w ip_address
| non_success_status resp d :
    requests_get w (ip_api_url ip_address) None = inr resp ->
    json resp = Some d ->
    dict_lookup d "status" <> Some (PyStr "success") ->
    primary_failure w ip_address
| no_city resp d :
    requests_get w (ip_api_url ip_address) None = inr resp ->
    json resp = Some d ->
    dict_lookup d "city" = None \/ dict_lookup d "city" = Some PyNone ->
    primary_failure w ip_address.

Definition secondary_succeeded (w : World) (ip_address address : string) : Prop :=
  geolocator_reverse w ip_address = inr (Some address).

(** The secondary provider raised, or found nothing. *)
Definition secondary_failed (w : World) (ip_address : string) : Prop :=
  match geolocator_reverse w ip_address with
  | inr (Some _) => False
  | _ => True
  end.

(** The lookups among the events: DNS, HTTP and geocoder calls. *)
Definition is_lookup (ev : event) : bool :=
  match ev with
  | EvResolve _ | EvGet _ _ | EvPost _ _ _ | EvReverse _ => true
  | _ => false
  end.

Definition lookups (evs : list event) : list event := filter is_lookup evs.

(* ================================================================== *)
(** ** The classification in words *)

(** [name] occurs in [header], letter case apart. *)
Definition ci_substring (name header : string) : Prop :=
  exists a b, lower header = (a ++ lower name ++ b)%string.

(** [name] is the first entry of [catalog] that occurs in [header]. *)
Definition first_catalog_match (catalog : list string) (header name : string) : Prop :=
  exists before after,
    catalog = before ++ name :: after /\
    ci_substring name header /\
    forall n, In n before -> ~ ci_substring n header.

(** The probe failed in the wider sense of the specification: the
    request raised, or the status is not a 2xx one. *)
Definition probe_not_2xx (w : World) (hostname : string) : Prop :=
  match requests_get w (probe_url hostname) (Some 5) with
  | inl _ => True
  | inr resp => ~ (200 <= status_code resp < 300)
  end.

(* ================================================================== *)
(** ** Rows and the records they come from *)

(** The valid records of a page, each with its position in the page,
    counted from [index]. *)
Fixpoint valid_positions (index : Z) (items : list item) : list (Z * item) :=
  match items with
  | [] => []
  | it :: rest =>
      (if has_http it then [(index, it)] else []) ++ valid_positions (index + 1) rest
  end.

(** Row [r] carries the hostname, IP and port of [it]. *)
Definition row_of_item (it : item) (r : row) : Prop :=
  item_host it = inr (r_hostname r) /\ r_ip r = ip it /\ r_port r = port it.

(** The indices [1..N] that the specification expects on [N] rows. *)
Definition dense_indices (rows : list row) : Prop :=
  map r_index rows = map Z.of_nat (seq 1 (List.length rows)).

(** No DNS lookup of a hostname of the page raises. *)
Definition dns_ok (w : World) (items : list item) : Prop :=
  forall it h,
    In it items -> http (service it) = Some h ->
    exists answers, resolver_resolve w (host h) = inr answers.

(** Row [r] is the table row of the record [p] with its position: the
    raw fields of the record, the location found for its IP with 未知
    for none, and the verdict of the classifier of the table. *)
Definition displayed (w : World) (p : Z * item) (r : row) : Prop :=
  r_index r = fst p /\
  row_of_item (snd p) r /\
  (exists location evs,
      runs_to (get_ip_location w (ip (snd p))) (inr location) evs /\
      r_location r = py_or location (PyStr UNKNOWN_LABEL)) /\
  (exists evs,
      runs_to (display_cdn_provider w (r_hostname r)) (inr (r_cdn r)) evs).

(** Row [r] is the spreadsheet row of the record [it] at the 0-based
    position [index]. *)
Definition exported (w : World) (index : Z) (it : item) (r : row) : Prop :=
  r_index r = index + 1 /\
  row_of_item it r /\
  (exists evs, runs_to (get_ip_location w (ip it)) (inr (r_location r)) evs) /\
  runs_to (identify_cdn_provider w (r_hostname r)) (inr (r_cdn r))
          [EvGet (probe_url (r_hostname r)) (Some 5)].

(** [Forall2] over a list and the positions of its elements from [index]. *)
Inductive Forall2_indexed {A B} (P : Z -> A -> B -> Prop)
  : Z -> list A -> list B -> Prop :=
| Forall2_indexed_nil index : Forall2_indexed P index [] []
| Forall2_indexed_cons index a b la lb :
    P index a b -> Forall2_indexed P (index + 1) la lb ->
    Forall2_indexed P index (a :: la) (b :: lb).

(** The two runs meet the same resolver results on the records of the
    page: the same DNS answers and probe responses for its hostnames, the
    same answers of both geolocation providers for its IPs. *)
Definition same_resolver_results (w1 w2 : World) (items : list item) : Prop :=
  forall it, In it items ->
    (forall h, http (service it) = Some h ->
       resolver_resolve w1 (host h) = resolver_resolve w2 (host h) /\
       requests_get w1 (probe_url (host h)) (Some 5) =
       requests_get w2 (probe_url (host h)) (Some 5)) /\
    requests_get w1 (ip_api_url (ip it)) None =
    requests_get w2 (ip_api_url (ip it)) None /\
    geolocator_reverse w1 (ip it) = geolocator_reverse w2 (ip it).

(* ================================================================== *)
(** ** A small world and a small page, for the examples *)

Definition demo_resolve (hostname : string) : dns_failure + list string :=
  if String.eqb hostname "a.example" then inr ["198.51.100.1"; "198.51.100.2"]
  else if String.eqb hostname "e.example" then inr ["198.51.100.5"; "198.51.100.6"]
  else if String.eqb hostname "f.example" then inr ["198.51.100.7"; "198.51.100.8"]
  else if String.eqb hostname "down.example" then inl NXDOMAIN
  else if String.eqb hostname "a..b" then inl EmptyLabel
  else inr ["192.0.2.1"].

Definition demo_get (url : string) (timeout : option Z) : get_failure + response :=
  if String.eqb url "http://a..b" then inl LocationParseFailure
  else if String.eqb url "http://a.example" then
    inr {| status_code := 200;
           headers := [("Content-Type", "text/html"); ("server", "CloudFlare-nginx")];
           json := None |}
  else if String.eqb url "http://c.example" then
    inr {| status_code := 200; headers := [("Server", "cloudflare")]; json := None |}
  else if String.eqb url "http://f.example" then
    inr {| status_code := 304; headers := [("Server", "cloudflare")]; json := None |}
  else if String.eqb url "http://ip-api.com/json/1.1.1.1?lang=zh-CN" then
    inr {| status_code := 200; headers := [];
           json := Some [("status", PyStr "success"); ("city", PyStr "Sydney")] |}
  else if String.eqb url "http://ip-api.com/json/3.3.3.3?lang=zh-CN" then
    inr {| status_code := 200; headers := [];
           json := Some [("status", PyStr "fail"); ("message", PyStr "reserved range")] |}
  else inl (RequestFailure ConnectionError).

(** In the directory of the examples a file can be written; the
    directory [quake_results_path] does not exist. *)
Definition demo_to_excel_fails (file_path : string) : bool :=
  String.eqb file_path "/home/user/quake_results_path/admin.xlsx".

Definition demo_label_refused :
  forall hostname timeout,
    demo_get ("http://" ++ hostname)%string timeout = inl LocationParseFailure ->
    exists f, demo_resolve hostname = inl f.
Proof.
  intros hostname timeout. unfold demo_get.
  destruct (String.eqb ("http://" ++ hostname) "http://a..b") eqn:E.
  - apply String.eqb_eq in E. simpl in E. injection E as ->.
    intros _. now exists EmptyLabel.
  - repeat match goal with
           | |- context [if ?b then _ else _] => destruct b
           end; discriminate.
Qed.

Definition demo_reverse (ip_address : string) : exn + option string :=
  if String.eqb ip_address "2.2.2.2" then inr (Some "Paris, France")
  else inl GeocoderError.

Definition demo_page (items : list item) : api_response :=
  {| meta_pagination := {| page_index := 1; page_size := 1; total := Z.of_nat (List.length items) |};
     data := items |}.

Definition valid_item (hostname ip_address : string) (p : Z) : item :=
  {| service := {| http := Some {| host := hostname |} |};
     ip := ip_address; port := p |}.

Definition invalid_item (ip_address : string) (p : Z) : item :=
  {| service := {| http := None |}; ip := ip_address; port := p |}.

Definition item_A : item := valid_item "a.example" "1.1.1.1" 443.
Definition item_B : item := invalid_item "3.3.3.3" 22.
Definition item_C : item := valid_item "c.example" "2.2.2.2" 80.
Definition item_D : item := valid_item "c.example" "3.3.3.3" 8080.
Definition item_E : item := valid_item "e.example" "3.3.3.3" 8443.
Definition item_down : item := valid_item "down.example" "1.1.1.1" 80.

Definition demo_post (url key : string) (payload : search_payload)
  : request_failure + search_response :=
  if String.eqb (p_query payload) "domain:example" then
    inr {| sr_status_code := 200;
           sr_json := Some (demo_page [item_A; item_B; item_C]) |}
  else inl ConnectionError.

Definition demo_world : World :=
  {| resolver_resolve := demo_resolve;
     requests_get := demo_get;
     requests_post := demo_post;
     geolocator_reverse := demo_reverse;
     getcwd := "/home/user";
     to_excel_fails := demo_to_excel_fails;
     label_refused := demo_label_refused |}.

Definition demo_resolve' (hostname : string) : dns_failure + list string :=
  if String.eqb hostname "elsewhere.example" then inl LifetimeTimeout
  else demo_resolve hostname.

Definition demo_get' (url : string) (timeout : option Z) : get_failure + response :=
  if String.eqb url "http://elsewhere.example" then inl (RequestFailure RequestTimeout)
  else demo_get url timeout.

Definition demo_label_refused' :
  forall hostname timeout,
    demo_get' ("http://" ++ hostname)%string timeout = inl LocationParseFailure ->
    exists f, demo_resolve' hostname = inl f.
Proof.
  intros hostname timeout. unfold demo_get', demo_resolve'.
  destruct (String.eqb ("http://" ++ hostname) "http://elsewhere.example");
    [discriminate|].
  intros H. apply demo_label_refused in H as [f Hf].
  destruct (String.eqb hostname "elsewhere.example"); eauto.
Qed.

(** A second world: the same answers about the example hosts and IPs,
    other answers elsewhere. *)
Definition demo_world' : World :=
  {| resolver_resolve := demo_resolve';
     requests_get := demo_get';
     requests_post := fun _ _ _ => inl RequestTimeout;
     geolocator_reverse := fun ip_address =>
       if String.eqb ip_address "9.9.9.9" then inr None
       else demo_reverse ip_address;
     getcwd := "/tmp";
     to_excel_fails := fun _ => false;
     label_refused := demo_label_refused' |}.

(** The rows of the table for the page [A; B; C] in the small world. *)
Definition table_ABC : list row :=
  [{| r_index := 1; r_hostname := "a.example"; r_ip := "1.1.1.1"; r_port := 443;
      r_location := PyStr "Sydney"; r_cdn := PyStr "cloudflare" |};
   {| r_index := 3; r_hostname := "c.example"; r_ip := "2.2.2.2"; r_port := 80;
      r_location := PyStr "Paris, France"; r_cdn := PyStr UNKNOWN_LABEL |}].

(** What [display_results] does on the page [A; B; C] before it prints
    the table. *)
Definition lookups_ABC (query_term : string) : list event :=
  [EvPrint MsgBlank;
   EvPrint (MsgPagination {| page_index := 1; page_size := 1; total := 3 |});
   EvPrint (MsgQuery query_term);
   EvResolve "a.example";
   EvGet (probe_url "a.example") (Some 5);
   EvPrint MsgQuerying;
   EvGet (ip_api_url "1.1.1.1") None;
   EvPrint MsgClear;
   EvPrint (MsgSkipWarning 2);
   EvResolve "c.example";
   EvPrint MsgQuerying;
   EvGet (ip_api_url "2.2.2.2") None;
   EvPrint (MsgIpApiError "2.2.2.2" (RequestException ConnectionError));
   EvReverse "2.2.2.2";
   EvPrint MsgClear].

Definition events_ABC (query_term : string) : list event :=
  lookups_ABC query_term ++ [EvPrint (MsgTable table_ABC)].

(** The record D in the table and in the spreadsheet. *)
Definition table_row_D : row :=
  {| r_index := 1; r_hostname := "c.example"; r_ip := "3.3.3.3"; r_port := 8080;
     r_location := PyStr UNKNOWN_LABEL; r_cdn := PyStr UNKNOWN_LABEL |}.

Definition sheet_row_D : row :=
  {| r_index := 1; r_hostname := "c.example"; r_ip := "3.3.3.3"; r_port := 8080;
     r_location := PyNone; r_cdn := PyStr "cloudflare" |}.

(** Two rows agree on what the table and the spreadsheet share: index,
    hostname, IP, port, and the location, which the table shows as 未知
    when there is none. *)
Definition rows_agree (t r : row) : Prop :=
  r_index t = r_index r /\
  r_hostname t = r_hostname r /\
  r_ip t = r_ip r /\
  r_port t = r_port r /\
  r_location t = py_or (r_location r) (PyStr UNKNOWN_LABEL).

(** The hostname, IP and port of a row, as the store takes them. *)
Definition db_row_of (r : row) : db_row := (r_hostname r, r_ip r, r_port r).

(** The command line [--search domain:example] with the default size and
    page, and the request it sends. *)
Definition demo_args : args :=
  {| search := Some "domain:example"; size := "100"; page := "1" |}.

(** A query with a slash: its file name [quake_results_path/admin.xlsx]
    names a file in a directory [quake_results_path] that does not
    exist. *)
Definition demo_args_slash : args :=
  {| search := Some "path:/admin"; size := "100"; page := "1" |}.

Definition demo_search_event : event :=
  EvPost quake_url "key"
         {| p_query := "domain:example"; p_start := "1"; p_size := "100" |}.

(* ================================================================== *)
(** ** The name of the spreadsheet in words *)

(** ASCII letters and digits. *)
Definition is_alnum (c : ascii) : bool :=
  let n := N_of_ascii c in
  (((48 <=? n) && (n <=? 57)) || ((65 <=? n) && (n <=? 90)) ||
   ((97 <=? n) && (n <=? 122)))%N.

(** What becomes of one character of the query: a space becomes an
    underscore, a colon and a double quote go, the rest stays. *)
Definition filename_char (c : ascii) : string :=
  if Ascii.eqb c " " then "_"
  else if Ascii.eqb c ":" then ""
  else if Ascii.eqb c dquote then ""
  else String c "".

Fixpoint concat_chars (f : ascii -> string) (s : string) : string :=
  match s with
  | EmptyString => EmptyString
  | String c t => (f c ++ concat_chars f t)%string
  end.

(** The specification's reading: only letters, digits and the
    replacement character remain of the query. *)
Definition alnum_only (name : string) : Prop :=
  forall c, In c (list_ascii_of_string name) -> is_alnum c = true \/ c = "_"%char.

(* ================================================================== *)
(** ** Kinds of events *)

(** What the enrichment of one record does apart from the DNS lookup:
    the probe, the two geolocation requests, and the progress and error
    lines of [get_ip_location]. *)
Definition enrichment_event (ev : event) : bool :=
  match ev with
  | EvGet _ _ | EvReverse _ => true
  | EvPrint MsgQuerying | EvPrint MsgClear => true
  | EvPrint (MsgGeopyError _ _) | EvPrint (MsgIpApiError _ _) => true
  | _ => false
  end.

(** What [display_results] does for a valid record: the above and the
    DNS lookup. *)
Definition record_event (ev : event) : bool :=
  match ev with
  | EvResolve _ => true
  | _ => enrichment_event ev
  end.

(** What the loop of [display_results] does: the above and the warnings
    about skipped records. *)
Definition display_event (ev : event) : bool :=
  match ev with
  | EvPrint (MsgSkipWarning _) => true
  | _ => record_event ev
  end.

(** The insertion of rows into the database table, or the writing of the
    spreadsheet. *)
Definition record_write (ev : event) : bool :=
  match ev with
  | EvExecuteMany _ | EvToExcel _ _ => true
  | _ => false
  end.

(** [m] has one outcome from every trace, and all it does is of kind [P]. *)
Definition emits_only (P : event -> bool) {A} (m : M A) : Prop :=
  exists r evs, runs_to m r evs /\ Forall (fun ev => P ev = true) evs.

(** The positions named by the skip warnings among the events. *)
Fixpoint skip_warnings (evs : list event) : list Z :=
  match evs with
  | [] => []
  | EvPrint (MsgSkipWarning index) :: rest => index :: skip_warnings rest
  | _ :: rest => skip_warnings rest
  end.

(** The positions, counted from [index], of the records without the http
    block. *)
Fixpoint invalid_positions (index : Z) (items : list item) : list Z :=
  match items with
  | [] => []
  | it :: rest =>
      (if has_http it then [] else [index]) ++ invalid_positions (index + 1) rest
  end.

(** The exceptions that can leave [main]: those of the search request,
    a DNS error from the table, the [KeyError] of a record without the
    http block, the [OSError] of the spreadsheet. *)
Definition main_exception (e : exn) : Prop :=
  match e with
  | RequestException _ | HTTPError _ | JSONDecodeError | DNSException _ => True
  | OSError => True
  | KeyError key => key = "http"
  | _ => False
  end.

(** A cell of the CDN column of the table: the label 未知, [None], or a
    name of the catalog. *)
Definition cdn_cell (v : pyval) : Prop :=
  v = PyStr UNKNOWN_LABEL \/ v = PyNone \/
  exists name, v = PyStr name /\ In name COMMON_CDN_NAMES.

(** The request [perform_search] sends. *)
Definition search_event (api_key query result_count start_page : string) : event :=
  EvPost quake_url api_key
         {| p_query := query; p_start := start_page; p_size := result_count |}.

(** The database row [row] carries the hostname, IP and port of [it]. *)
Definition db_row_of_item (it : item) (row : db_row) : Prop :=
  item_host it = inr (fst (fst row)) /\ snd (fst row) = ip it /\ snd row = port it.

(** A third world: the small world with a search service that answers
    every query with the page [A; C]. *)
Definition demo_world_AC : World :=
  {| resolver_resolve := demo_resolve;
     requests_get := demo_get;
     requests_post := fun _ _ _ =>
       inr {| sr_status_code := 200; sr_json := Some (demo_page [item_A; item_C]) |};
     geolocator_reverse := demo_reverse;
     getcwd := "/home/user";
     to_excel_fails := demo_to_excel_fails;
     label_refused := demo_label_refused |}.

(** No hostname of the page is refused by urllib3. *)
Definition probes_parse (w : World) (items : list item) : Prop :=
  forall it h,
    In it items -> http (service it) = Some h -> ~ probe_refused w (host h).

(** The spreadsheet of the query can be written in the working
    directory. *)
Definition sheet_writable (w : World) (query_term : string) : Prop :=
  to_excel_fails w (os_path_join (getcwd w) (export_file_name query_term)) = false.

(** Table row and spreadsheet row agree: on index, hostname, IP, port and
    location as [rows_agree] says, and on the CDN provider when the
    hostname has two addresses or more. *)
Definition rows_agree_cdn (w : World) (t r : row) : Prop :=
  rows_agree t r /\
  forall answers,
    resolver_resolve w (r_hostname r) = inr answers ->
    2 <= Z.of_nat (List.length answers) ->
    r_cdn t = r_cdn r.

(** A record whose hostname has an empty label. *)
Definition item_bad : item := valid_item "a..b" "1.1.1.1" 80.

Arguments runs_to {A} m r evs /.
Arguments probe_url : simpl never.
Arguments ip_api_url : simpl never.

(** Unfold the monad, and nothing else. *)
Ltac run :=
  cbv beta iota zeta delta
    [bind try_except ret raise emit print lift get resolve reverse post
     to_excel get_exn raise_for_status is_exception].

(** Two traces that differ by the bracketing of their appends. *)
Ltac closes :=
  rewrite <- ?app_assoc, ?app_nil_r; reflexivity.

(* ================================================================== *)
(** ** Strings *)

Lemma startswith_spec (p s : string) :
  startswith p s = true <-> exists t, s = (p ++ t)%string.
Proof.
  revert s; induction p as [|a p IH]; intros s; simpl.
  - split; [intros _; now exists s | reflexivity].
  - destruct s as [|b s].
    + split; [discriminate | intros [t Ht]; discriminate].
    + rewrite andb_true_iff, Ascii.eqb_eq, IH. split.
      * intros [-> [t ->]]. now exists t.
      * intros [t Ht]. injection Ht as -> ->. split; [reflexivity | now exists t].
Qed.

Lemma str_in_unfold (n h : string) :
  str_in n h = startswith n h ||
               match h with EmptyString => false | String _ t => str_in n t end.
Proof. destruct h; reflexivity. Qed.

(** [str_in] is the substring relation. *)
Lemma str_in_spec (n h : string) :
  str_in n h = true <-> exists a b, h = (a ++ n ++ b)%string.
Proof.
  split.
  - induction h as [|c h IH]; simpl; rewrite orb_true_iff.
    + intros [H|H]; [|discriminate].
      apply startswith_spec in H as [t Ht]. now exists "", t.
    + intros [H|H].
      * apply startswith_spec in H as [t Ht]. now exists "", t.
      * destruct (IH H) as (a & b & ->). now exists (String c a), b.
  - intros (a & b & ->). induction a as [|c a IH].
    + rewrite str_in_unfold, orb_true_iff. left.
      apply startswith_spec. now exists b.
    + simpl. rewrite IH. apply orb_true_r.
Qed.

(* ================================================================== *)
(** ** Running a computation *)

Section Runs.

Context {A B : Type}.

Lemma runs_to_ret (a : A) : runs_to (ret a) (inr a) [].
Proof. intros tr. unfold ret. now rewrite app_nil_r. Qed.

Lemma runs_to_raise (e : exn) : runs_to (@raise A e) (inl e) [].
Proof. intros tr. unfold raise. now rewrite app_nil_r. Qed.

Lemma runs_to_bind (m : M A) (k : A -> M B) a e1 r e2 :
  runs_to m (inr a) e1 -> runs_to (k a) r e2 ->
  runs_to (bind m k) r (e1 ++ e2).
Proof.
  intros Hm Hk tr. unfold bind. rewrite Hm, Hk. now rewrite app_assoc.
Qed.

Lemma runs_to_bind_raise (m : M A) (k : A -> M B) e e1 :
  runs_to m (inl e) e1 -> runs_to (bind m k) (inl e) e1.
Proof. intros Hm tr. unfold bind. now rewrite Hm. Qed.

Lemma runs_to_try_ok (body : M A) c h a e1 :
  runs_to body (inr a) e1 -> runs_to (try_except body c h) (inr a) e1.
Proof. intros Hb tr. unfold try_except. now rewrite Hb. Qed.

Lemma runs_to_try_caught (body : M A) c h e e1 r e2 :
  runs_to body (inl e) e1 -> c e = true -> runs_to (h e) r e2 ->
  runs_to (try_except body c h) r (e1 ++ e2).
Proof.
  intros Hb Hc Hh tr. unfold try_except. rewrite Hb, Hc, Hh.
  now rewrite app_assoc.
Qed.

Lemma runs_to_try_uncaught (body : M A) c h e e1 :
  runs_to body (inl e) e1 -> c e = false ->
  runs_to (try_except body c h) (inl e) e1.
Proof. intros Hb Hc tr. unfold try_except. now rewrite Hb, Hc. Qed.

(** A computation has one outcome. *)
Lemma runs_to_fun (m : M A) r r' evs evs' :
  runs_to m r evs -> runs_to m r' evs' -> r = r' /\ evs = evs'.
Proof.
  intros H H'. specialize (H []). specialize (H' []). simpl in *.
  rewrite H in H'. now injection H' as -> ->.
Qed.

End Runs.

Lemma runs_to_emit (ev : event) : runs_to (emit ev) (inr tt) [ev].
Proof. intros tr. reflexivity. Qed.

Lemma never_raises_framed {A} (m : M A) : never_raises m -> framed m.
Proof. intros (a & evs & H). now exists (inr a), evs. Qed.

Lemma framed_ret {A} (a : A) : framed (ret a).
Proof. exists (inr a), []. apply runs_to_ret. Qed.

Lemma framed_raise {A} (e : exn) : framed (@raise A e).
Proof. exists (inl e), []. apply runs_to_raise. Qed.

Lemma framed_emit (ev : event) : framed (emit ev).
Proof. exists (inr tt), [ev]. apply runs_to_emit. Qed.

Lemma framed_lift {A} (r : exn + A) : framed (lift r).
Proof. destruct r; [apply framed_raise | apply framed_ret]. Qed.

Lemma framed_bind {A B} (m : M A) (k : A -> M B) :
  framed m -> (forall a, framed (k a)) -> framed (bind m k).
Proof.
  intros (r & e1 & Hm) Hk. destruct r as [e|a].
  - exists (inl e), e1. now apply runs_to_bind_raise.
  - destruct (Hk a) as (r & e2 & Ha). exists r, (e1 ++ e2).
    now apply runs_to_bind with a.
Qed.

Lemma framed_try {A} (body : M A) c h :
  framed body -> (forall e, framed (h e)) -> framed (try_except body c h).
Proof.
  intros (r & e1 & Hb) Hh. destruct r as [e|a].
  - destruct (c e) eqn:Hc.
    + destruct (Hh e) as (r & e2 & He). exists r, (e1 ++ e2).
      now apply runs_to_try_caught with e.
    + exists (inl e), e1. now apply runs_to_try_uncaught.
  - exists (inr a), e1. now apply runs_to_try_ok.
Qed.

(* ================================================================== *)
(** ** The lookups, one by one *)

Section Lookups.

Variable w : World.

Lemma error_status_true (status : Z) :
  400 <= status < 600 -> (400 <=? status) && (status <? 600) = true.
Proof.
  intros H. apply andb_true_iff. split; [apply Z.leb_le | apply Z.ltb_lt]; lia.
Qed.

Lemma error_status_false (status : Z) :
  ~ (400 <= status < 600) -> (400 <=? status) && (status <? 600) = false.
Proof.
  intros H. destruct ((400 <=? status) && (status <? 600)) eqn:E; [|reflexivity].
  apply andb_true_iff in E as [E1 E2].
  apply Z.leb_le in E1. apply Z.ltb_lt in E2. lia.
Qed.

Lemma raise_for_status_error (status : Z) :
  400 <= status < 600 ->
  runs_to (raise_for_status status) (inl (HTTPError status)) [].
Proof.
  intros H tr. unfold raise_for_status. rewrite (error_status_true _ H).
  apply runs_to_raise.
Qed.

Lemma raise_for_status_pass (status : Z) :
  ~ (400 <= status < 600) ->
  runs_to (raise_for_status status) (inr tt) [].
Proof.
  intros H tr. unfold raise_for_status. rewrite (error_status_false _ H).
  apply runs_to_ret.
Qed.

Lemma framed_raise_for_status (status : Z) : framed (raise_for_status status).
Proof.
  unfold raise_for_status.
  destruct ((400 <=? status) && (status <? 600));
    [apply framed_raise | apply framed_ret].
Qed.

Lemma framed_resolve hostname : framed (resolve w hostname).
Proof. eexists _, [EvResolve hostname]. intros tr. reflexivity. Qed.

Lemma framed_get url timeout : framed (get w url timeout).
Proof. eexists _, [EvGet url timeout]. intros tr. reflexivity. Qed.

Lemma framed_reverse ip_address : framed (reverse w ip_address).
Proof. eexists _, [EvReverse ip_address]. intros tr. reflexivity. Qed.

Lemma identify_cdn_provider_passed hostname resp :
  probe_succeeded w hostname resp ->
  runs_to (identify_cdn_provider w hostname) (inr (header_verdict resp))
          [EvGet (probe_url hostname) (Some 5)].
Proof.
  intros [Hget Hst] tr.
  unfold identify_cdn_provider, try_except, bind, get. rewrite Hget.
  rewrite (raise_for_status_pass _ Hst). rewrite app_nil_r.
  unfold header_verdict.
  destruct (first_cdn_match _ _); reflexivity.
Qed.

Lemma identify_cdn_provider_failed hostname :
  probe_failed w hostname ->
  ~ probe_refused w hostname ->
  runs_to (identify_cdn_provider w hostname) (inr PyNone)
          [EvGet (probe_url hostname) (Some 5)].
Proof.
  unfold probe_failed, probe_refused. intros H Hparse tr.
  unfold identify_cdn_provider, try_except, bind, get.
  destruct (requests_get w (probe_url hostname) (Some 5)) as [[f|]|resp].
  - reflexivity.
  - now destruct Hparse.
  - rewrite (raise_for_status_error _ H). rewrite app_nil_r. reflexivity.
Qed.

(** The [except] clause does not catch the error of a refused hostname. *)
Lemma identify_cdn_provider_refused hostname :
  probe_refused w hostname ->
  runs_to (identify_cdn_provider w hostname) (inl LocationParseError)
          [EvGet (probe_url hostname) (Some 5)].
Proof.
  unfold probe_refused. intros H tr.
  unfold identify_cdn_provider, try_except, bind, get. now rewrite H.
Qed.

(** A hostname that resolves is not one that urllib3 refuses. *)
Lemma resolved_not_refused hostname answers :
  resolver_resolve w hostname = inr answers -> ~ probe_refused w hostname.
Proof.
  intros Hdns Href. destruct (label_refused w hostname (Some 5) Href) as [f Hf].
  congruence.
Qed.

Lemma probe_refused_dec hostname :
  probe_refused w hostname \/ ~ probe_refused w hostname.
Proof.
  unfold probe_refused.
  destruct (requests_get w (probe_url hostname) (Some 5)) as [[f|]|resp];
    [right; discriminate | now left | right; discriminate].
Qed.

Lemma probe_outcome hostname :
  probe_failed w hostname \/ exists resp, probe_succeeded w hostname resp.
Proof.
  unfold probe_failed, probe_succeeded.
  destruct (requests_get w (probe_url hostname) (Some 5)) as [f|resp]; auto.
  destruct (Z_le_dec 400 (status_code resp)); [|right; exists resp; split; [auto|lia]].
  destruct (Z_lt_dec (status_code resp) 600); [left; lia|].
  right; exists resp; split; [auto|lia].
Qed.

(** Unless the hostname is refused, [identify_cdn_provider] returns, and
    issues exactly the probe. *)
Lemma identify_cdn_provider_returns hostname :
  ~ probe_refused w hostname ->
  exists v, runs_to (identify_cdn_provider w hostname) (inr v)
                    [EvGet (probe_url hostname) (Some 5)].
Proof.
  intros Hparse. destruct (probe_outcome hostname) as [H|[resp H]].
  - exists PyNone. now apply identify_cdn_provider_failed.
  - exists (header_verdict resp). now apply identify_cdn_provider_passed.
Qed.

End Lookups.

(* ================================================================== *)
(** ** Geolocation *)

Section Geolocation.

Variable w : World.

Lemma pyval_eqb_eq (a b : pyval) : pyval_eqb a b = true <-> a = b.
Proof.
  destruct a as [|s], b as [|t]; simpl; split; try congruence.
  - intros H. apply String.eqb_eq in H. now subst.
  - intros [= ->]. apply String.eqb_refl.
Qed.

Lemma framed_get_ip_location_with_ip_api ip_address :
  framed (_get_ip_location_with_ip_api w ip_address).
Proof.
  unfold _get_ip_location_with_ip_api.
  apply framed_try.
  - apply framed_bind; [apply framed_get | intros resp].
    apply framed_bind; [apply framed_raise_for_status | intros _].
    apply framed_bind.
    { destruct (json resp); [apply framed_ret | apply framed_raise]. }
    intros d. apply framed_bind.
    { destruct (dict_lookup d "status"); [apply framed_ret | apply framed_raise]. }
    intros st. destruct (pyval_eqb st (PyStr "success")); [|apply framed_ret].
    destruct (dict_lookup d "city"); [apply framed_ret | apply framed_raise].
  - intros e. apply framed_bind; [apply framed_emit | intros _; apply framed_ret].
Qed.

(** The primary lookup never raises: it makes its one request, and may
    print one diagnostic. *)
Lemma get_ip_location_with_ip_api_returns ip_address :
  exists v evs,
    runs_to (_get_ip_location_with_ip_api w ip_address) (inr v)
            (EvGet (ip_api_url ip_address) None :: evs) /\
    lookups evs = [].
Proof.
  unfold _get_ip_location_with_ip_api, runs_to.
  destruct (requests_get w (ip_api_url ip_address) None) as [f|resp] eqn:Hget.
  { eexists _, _. split; [intros tr; run; rewrite Hget; run; closes | reflexivity]. }
  destruct ((400 <=? status_code resp) && (status_code resp <? 600)) eqn:Hst.
  { eexists _, _. split;
      [intros tr; run; rewrite Hget; run; rewrite Hst; run; closes | reflexivity]. }
  destruct (json resp) as [d|] eqn:Hj.
  2:{ eexists _, _. split;
      [intros tr; run; rewrite Hget; run; rewrite Hst; run; rewrite Hj; run; closes
      | reflexivity]. }
  destruct (dict_lookup d "status") as [st|] eqn:Hs.
  2:{ eexists _, _. split;
      [intros tr; run; rewrite Hget; run; rewrite Hst; run; rewrite Hj; run;
       rewrite Hs; run; closes
      | reflexivity]. }
  destruct (pyval_eqb st (PyStr "success")) eqn:Hok.
  2:{ eexists _, []. split;
      [intros tr; run; rewrite Hget; run; rewrite Hst; run; rewrite Hj; run;
       rewrite Hs; run; rewrite Hok; run; closes
      | reflexivity]. }
  destruct (dict_lookup d "city") as [c|] eqn:Hc.
  - eexists _, []. split;
      [intros tr; run; rewrite Hget; run; rewrite Hst; run; rewrite Hj; run;
       rewrite Hs; run; rewrite Hok; run; rewrite Hc; run; closes
      | reflexivity].
  - eexists _, _. split;
      [intros tr; run; rewrite Hget; run; rewrite Hst; run; rewrite Hj; run;
       rewrite Hs; run; rewrite Hok; run; rewrite Hc; run; closes
      | reflexivity].
Qed.

Lemma get_ip_location_with_ip_api_succeeded ip_address city :
  primary_succeeded w ip_address city ->
  runs_to (_get_ip_location_with_ip_api w ip_address) (inr (PyStr city))
          [EvGet (ip_api_url ip_address) None].
Proof.
  intros (resp & d & Hget & Hst & Hjson & Hstatus & Hcity) tr.
  unfold _get_ip_location_with_ip_api, try_except, bind, get.
  rewrite Hget, (raise_for_status_pass _ Hst), Hjson.
  cbn. rewrite Hstatus. cbn. rewrite Hcity. cbn. now rewrite app_nil_r.
Qed.

Lemma get_ip_location_with_ip_api_failed ip_address :
  primary_failure w ip_address ->
  exists evs,
    runs_to (_get_ip_location_with_ip_api w ip_address) (inr PyNone)
            (EvGet (ip_api_url ip_address) None :: evs) /\
    lookups evs = [].
Proof.
  intros Hfail.
  destruct (get_ip_location_with_ip_api_returns ip_address) as (v & evs & Hrun & Hl).
  exists evs. split; [|exact Hl].
  enough (v = PyNone) by now subst.
  specialize (Hrun []). revert Hrun.
  unfold _get_ip_location_with_ip_api. run.
  destruct Hfail as [f Hget | resp Hget Hst | resp Hget Hj | resp d Hget Hj Hs
                    | resp d Hget Hj Hc]; rewrite Hget; run.
  - congruence.
  - rewrite (error_status_true _ Hst). congruence.
  - destruct ((400 <=? status_code resp) && (status_code resp <? 600));
      [congruence|].
    rewrite Hj. congruence.
  - destruct ((400 <=? status_code resp) && (status_code resp <? 600));
      [congruence|].
    rewrite Hj. destruct (dict_lookup d "status") as [st|]; [|congruence].
    destruct (pyval_eqb st (PyStr "success")) eqn:E.
    + apply pyval_eqb_eq in E. congruence.
    + congruence.
  - destruct ((400 <=? status_code resp) && (status_code resp <? 600));
      [congruence|].
    rewrite Hj. destruct (dict_lookup d "status") as [st|]; [|congruence].
    destruct (pyval_eqb st (PyStr "success")); [|congruence].
    destruct Hc as [-> | ->]; congruence.
Qed.

(** Either the primary provider succeeded with a city, or it failed in one
    of the listed ways. *)
Lemma primary_outcome ip_address :
  (exists city, primary_succeeded w ip_address city) \/ primary_failure w ip_address.
Proof.
  destruct (requests_get w (ip_api_url ip_address) None) as [f|resp] eqn:Hget.
  { right. now apply network_error with f. }
  destruct (Z_le_dec 400 (status_code resp)) as [H1|H1];
    [destruct (Z_lt_dec (status_code resp) 600) as [H2|H2]|].
  { right. apply error_status with resp; auto. }
  all: destruct (json resp) as [d|] eqn:Hj;
    [|right; now apply no_json_object with resp].
  all: destruct (dict_lookup d "city") as [[|city]|] eqn:Hc;
    [right; apply no_city with resp d; auto | |
     right; apply no_city with resp d; auto].
  all: destruct (dict_lookup d "status") as [[|st]|] eqn:Hs;
    [right; apply non_success_status with resp d; congruence | |
     right; apply non_success_status with resp d; congruence].
  all: destruct (String.eqb st "success") eqn:E;
    [apply String.eqb_eq in E; subst st; left; exists city, resp, d;
       repeat split; auto; lia
    | apply String.eqb_neq in E; right;
      apply non_success_status with resp d; congruence].
Qed.

Lemma primary_succeeded_not_failure ip_address city :
  primary_succeeded w ip_address city -> ~ primary_failure w ip_address.
Proof.
  intros (resp & d & Hget & Hst & Hj & Hs & Hc) Hf.
  destruct Hf as [f Hg | r Hg Hst' | r Hg Hj' | r d' Hg Hj' Hs' | r d' Hg Hj' Hc'];
    rewrite Hget in Hg; try discriminate; injection Hg as <-.
  - contradiction.
  - congruence.
  - rewrite Hj in Hj'. injection Hj' as <-. contradiction.
  - rewrite Hj in Hj'. injection Hj' as <-. destruct Hc'; congruence.
Qed.

Lemma get_ip_location_with_geopy_succeeded ip_address address :
  secondary_succeeded w ip_address address ->
  runs_to (_get_ip_location_with_geopy w ip_address) (inr (PyStr address))
          [EvReverse ip_address].
Proof.
  intros H tr. unfold _get_ip_location_with_geopy, try_except, bind, reverse.
  now rewrite H.
Qed.

Lemma get_ip_location_with_geopy_failed ip_address :
  secondary_failed w ip_address ->
  exists e,
    runs_to (_get_ip_location_with_geopy w ip_address) (inr PyNone)
            [EvReverse ip_address; EvPrint (MsgGeopyError ip_address e)].
Proof.
  unfold secondary_failed, _get_ip_location_with_geopy, try_except, bind, reverse.
  destruct (geolocator_reverse w ip_address) as [e|[a|]]; intros H; [|tauto|].
  - exists e. intros tr. cbn. now rewrite <- app_assoc.
  - exists AttributeError. intros tr. cbn. now rewrite <- app_assoc.
Qed.

Lemma secondary_outcome ip_address :
  (exists address, secondary_succeeded w ip_address address) \/
  secondary_failed w ip_address.
Proof.
  unfold secondary_succeeded, secondary_failed.
  destruct (geolocator_reverse w ip_address) as [e|[a|]]; eauto.
Qed.

End Geolocation.

Section Locate.

Variable w : World.

Lemma lookups_app (a b : list event) : lookups (a ++ b) = lookups a ++ lookups b.
Proof. apply filter_app. Qed.

Lemma get_ip_location_primary ip_address city :
  primary_succeeded w ip_address city ->
  runs_to (get_ip_location w ip_address) (inr (PyStr city))
          [EvPrint MsgQuerying; EvGet (ip_api_url ip_address) None; EvPrint MsgClear].
Proof.
  intros H tr. unfold get_ip_location. run.
  rewrite (get_ip_location_with_ip_api_succeeded _ _ _ H). closes.
Qed.

Lemma get_ip_location_secondary ip_address address :
  primary_failure w ip_address ->
  secondary_succeeded w ip_address address ->
  exists evs,
    runs_to (get_ip_location w ip_address) (inr (PyStr address)) evs /\
    lookups evs = [EvGet (ip_api_url ip_address) None; EvReverse ip_address].
Proof.
  intros H1 H2.
  destruct (get_ip_location_with_ip_api_failed _ _ H1) as (evs1 & Hrun1 & Hl1).
  exists ([EvPrint MsgQuerying] ++ [EvGet (ip_api_url ip_address) None] ++ evs1
          ++ [EvReverse ip_address] ++ [EvPrint MsgClear]).
  split.
  - intros tr. unfold get_ip_location. run. rewrite Hrun1.
    rewrite (get_ip_location_with_geopy_succeeded _ _ _ H2). closes.
  - rewrite !lookups_app, Hl1. reflexivity.
Qed.

Lemma get_ip_location_absent ip_address :
  primary_failure w ip_address ->
  secondary_failed w ip_address ->
  exists evs,
    runs_to (get_ip_location w ip_address) (inr PyNone) evs /\
    lookups evs = [EvGet (ip_api_url ip_address) None; EvReverse ip_address].
Proof.
  intros H1 H2.
  destruct (get_ip_location_with_ip_api_failed _ _ H1) as (evs1 & Hrun1 & Hl1).
  destruct (get_ip_location_with_geopy_failed _ _ H2) as (e & Hrun2).
  exists ([EvPrint MsgQuerying] ++ [EvGet (ip_api_url ip_address) None] ++ evs1
          ++ [EvReverse ip_address; EvPrint (MsgGeopyError ip_address e)]
          ++ [EvPrint MsgClear]).
  split.
  - intros tr. unfold get_ip_location. run. rewrite Hrun1, Hrun2. closes.
  - rewrite !lookups_app, Hl1. reflexivity.
Qed.

(** [get_ip_location] never raises. *)
Lemma get_ip_location_returns ip_address :
  never_raises (get_ip_location w ip_address).
Proof.
  destruct (primary_outcome w ip_address) as [[city H1]|H1].
  { exists (PyStr city). eexists. apply get_ip_location_primary, H1. }
  destruct (secondary_outcome w ip_address) as [[address H2]|H2].
  - destruct (get_ip_location_secondary _ _ H1 H2) as (evs & H & _).
    exists (PyStr address), evs. exact H.
  - destruct (get_ip_location_absent _ H1 H2) as (evs & H & _).
    exists PyNone, evs. exact H.
Qed.

(** C5. [get_ip_location] asks the primary provider (ip-api) first and
    returns its city when that provider succeeded, without asking the
    secondary; when the primary failed (network error, error status, no
    JSON, a status other than success, no city) it asks the secondary
    (the reverse geocoder) next and returns its address; when both failed
    it returns [None].  It never raises.  A result obtained without the
    secondary is the city of a primary answer with the success status. *)
Theorem get_ip_location_fallback (ip_address : string) :
  never_raises (get_ip_location w ip_address) /\
  (forall city,
      primary_succeeded w ip_address city ->
      exists evs,
        runs_to (get_ip_location w ip_address) (inr (PyStr city)) evs /\
        lookups evs = [EvGet (ip_api_url ip_address) None]) /\
  (forall address,
      primary_failure w ip_address ->
      secondary_succeeded w ip_address address ->
      exists evs,
        runs_to (get_ip_location w ip_address) (inr (PyStr address)) evs /\
        lookups evs = [EvGet (ip_api_url ip_address) None; EvReverse ip_address]) /\
  (primary_failure w ip_address ->
   secondary_failed w ip_address ->
   exists evs,
     runs_to (get_ip_location w ip_address) (inr PyNone) evs /\
     lookups evs = [EvGet (ip_api_url ip_address) None; EvReverse ip_address]) /\
  (forall v evs,
      runs_to (get_ip_location w ip_address) (inr v) evs ->
      lookups evs = [EvGet (ip_api_url ip_address) None] ->
      exists city, v = PyStr city /\ primary_succeeded w ip_address city).
Proof.
  split; [apply get_ip_location_returns|].
  split; [|split; [|split]].
  - intros city H. eexists. split; [now apply get_ip_location_primary | reflexivity].
  - intros address. apply get_ip_location_secondary.
  - apply get_ip_location_absent.
  - intros v evs Hrun Hl.
    destruct (primary_outcome w ip_address) as [[city H1]|H1].
    + exists city. split; [|exact H1].
      destruct (runs_to_fun _ _ _ _ _ Hrun (get_ip_location_primary _ _ H1)) as [E _].
      congruence.
    + exfalso.
      destruct (secondary_outcome w ip_address) as [[address H2]|H2].
      * destruct (get_ip_location_secondary _ _ H1 H2) as (evs' & H & Hl').
        destruct (runs_to_fun _ _ _ _ _ Hrun H) as [_ ->]. congruence.
      * destruct (get_ip_location_absent _ H1 H2) as (evs' & H & Hl').
        destruct (runs_to_fun _ _ _ _ _ Hrun H) as [_ ->]. congruence.
Qed.

End Locate.

(** The fallback at work in the small world: 1.1.1.1 is answered by the
    primary, 2.2.2.2 by the secondary, 3.3.3.3 by neither. *)
Lemma get_ip_location_fallback_witness :
  (exists evs,
      runs_to (get_ip_location demo_world "1.1.1.1") (inr (PyStr "Sydney")) evs /\
      lookups evs = [EvGet (ip_api_url "1.1.1.1") None]) /\
  (exists evs,
      runs_to (get_ip_location demo_world "2.2.2.2") (inr (PyStr "Paris, France")) evs /\
      lookups evs = [EvGet (ip_api_url "2.2.2.2") None; EvReverse "2.2.2.2"]) /\
  (exists evs,
      runs_to (get_ip_location demo_world "3.3.3.3") (inr PyNone) evs /\
      lookups evs = [EvGet (ip_api_url "3.3.3.3") None; EvReverse "3.3.3.3"]).
Proof.
  split; [|split].
  - apply (proj1 (proj2 (get_ip_location_fallback demo_world "1.1.1.1"))).
    eexists _, _. repeat split; try reflexivity. cbn. lia.
  - apply (proj1 (proj2 (proj2 (get_ip_location_fallback demo_world "2.2.2.2")))).
    + now apply network_error with (RequestFailure ConnectionError).
    + reflexivity.
  - apply (proj1 (proj2 (proj2 (proj2 (get_ip_location_fallback demo_world "3.3.3.3"))))).
    + eapply non_success_status; [reflexivity | reflexivity | cbn; congruence].
    + exact I.
Defined.

(* ================================================================== *)
(** ** Classification *)

Lemma first_cdn_match_some (names : list string) (header name : string) :
  first_cdn_match names (lower header) = Some name <->
  first_catalog_match names header name.
Proof.
  unfold first_catalog_match, ci_substring. split.
  - induction names as [|n names IH]; simpl; [discriminate|].
    destruct (str_in (lower n) (lower header)) eqn:E.
    + intros [= ->]. exists [], names. split; [reflexivity|].
      split; [now apply str_in_spec | intros ? []].
    + intros H. destruct (IH H) as (before & after & -> & Hm & Hb).
      exists (n :: before), after. split; [reflexivity|]. split; [exact Hm|].
      intros n' [<-|Hin]; [|now apply Hb].
      intros Hn. apply str_in_spec in Hn. congruence.
  - intros (before & after & -> & Hm & Hb).
    induction before as [|n before IH]; simpl.
    + apply str_in_spec in Hm. now rewrite Hm.
    + destruct (str_in (lower n) (lower header)) eqn:E.
      * exfalso. apply (Hb n); [now left | now apply str_in_spec].
      * apply IH. intros n' Hin. apply Hb. now right.
Qed.

Lemma first_cdn_match_none (names : list string) (header : string) :
  first_cdn_match names (lower header) = None <->
  forall name, In name names -> ~ ci_substring name header.
Proof.
  unfold ci_substring. induction names as [|n names IH]; simpl.
  - split; [intros _ ? [] | reflexivity].
  - destruct (str_in (lower n) (lower header)) eqn:E.
    + split; [discriminate|]. intros H. exfalso.
      apply (H n); [now left | now apply str_in_spec].
    + rewrite IH. split.
      * intros H name [<-|Hin]; [|now apply H].
        intros Hn. apply str_in_spec in Hn. congruence.
      * intros H name Hin. apply H. now right.
Qed.

(** A header that the response does not have reads as the default. *)
Lemma headers_get_absent (hs : list (string * string)) (name default : string) :
  (forall k v, In (k, v) hs -> lower k <> lower name) ->
  headers_get hs name default = default.
Proof.
  induction hs as [|[k v] hs IH]; simpl; intros H; [reflexivity|].
  destruct (String.eqb (lower k) (lower name)) eqn:E.
  - apply String.eqb_eq in E. exfalso. apply (H k v); auto.
  - apply IH. intros k' v' Hin. apply (H k' v'). now right.
Qed.

Section Classification.

Variable w : World.

Lemma display_cdn_provider_many hostname answers v :
  resolver_resolve w hostname = inr answers ->
  2 <= Z.of_nat (List.length answers) ->
  runs_to (identify_cdn_provider w hostname) (inr v)
          [EvGet (probe_url hostname) (Some 5)] ->
  runs_to (display_cdn_provider w hostname) (inr v)
          [EvResolve hostname; EvGet (probe_url hostname) (Some 5)].
Proof.
  intros Hdns Hlen Hid tr. unfold display_cdn_provider. run.
  unfold check_cdn_usage. run. rewrite Hdns.
  replace (2 <=? Z.of_nat (List.length answers)) with true
    by (symmetry; now apply Z.leb_le).
  rewrite Hid. closes.
Qed.

(** With fewer than two A records the table shows the label 未知 and no
    probe is sent. *)
Lemma display_cdn_provider_few hostname answers :
  resolver_resolve w hostname = inr answers ->
  Z.of_nat (List.length answers) < 2 ->
  runs_to (display_cdn_provider w hostname) (inr (PyStr UNKNOWN_LABEL))
          [EvResolve hostname].
Proof.
  intros Hdns Hlen tr. unfold display_cdn_provider. run.
  unfold check_cdn_usage. run. rewrite Hdns.
  replace (2 <=? Z.of_nat (List.length answers)) with false
    by (symmetry; apply Z.leb_gt; lia).
  reflexivity.
Qed.

Lemma display_cdn_provider_dns_error hostname f :
  resolver_resolve w hostname = inl f ->
  runs_to (display_cdn_provider w hostname) (inl (DNSException f))
          [EvResolve hostname].
Proof.
  intros Hdns tr. unfold display_cdn_provider. run.
  unfold check_cdn_usage. run. now rewrite Hdns.
Qed.

(** C6. For a hostname with at least two A records whose probe passed,
    the classifier of the table (and [identify_cdn_provider] itself)
    returns the catalog name of the first entry of [COMMON_CDN_NAMES]
    that occurs, letter case apart, in the Server header, and [None] when
    no entry occurs in it, in particular when the response has no Server
    header. *)
Theorem identify_cdn_provider_first_match
        (hostname : string) (answers : list string) (resp : response) :
  resolver_resolve w hostname = inr answers ->
  2 <= Z.of_nat (List.length answers) ->
  probe_succeeded w hostname resp ->
  let server := headers_get (headers resp) "Server" "" in
  exists verdict,
    runs_to (display_cdn_provider w hostname) (inr verdict)
            [EvResolve hostname; EvGet (probe_url hostname) (Some 5)] /\
    runs_to (identify_cdn_provider w hostname) (inr verdict)
            [EvGet (probe_url hostname) (Some 5)] /\
    (forall name,
        verdict = PyStr name <-> first_catalog_match COMMON_CDN_NAMES server name) /\
    (verdict = PyNone <->
     forall name, In name COMMON_CDN_NAMES -> ~ ci_substring name server) /\
    ((forall k v, In (k, v) (headers resp) -> lower k <> lower "Server") ->
     verdict = PyNone).
Proof.
  intros Hdns Hlen Hprobe server.
  pose proof (identify_cdn_provider_passed _ _ _ Hprobe) as Hid.
  exists (header_verdict resp).
  split; [now apply display_cdn_provider_many with answers|].
  split; [exact Hid|].
  unfold header_verdict. fold server.
  split; [|split].
  - intros name. rewrite <- first_cdn_match_some.
    destruct (first_cdn_match COMMON_CDN_NAMES (lower server));
      split; congruence.
  - rewrite <- first_cdn_match_none.
    destruct (first_cdn_match COMMON_CDN_NAMES (lower server));
      split; congruence.
  - intros Habsent. unfold server.
    rewrite (headers_get_absent _ _ _ Habsent). reflexivity.
Qed.

End Classification.

(** In the small world a.example has two addresses and answers with the
    header [server: CloudFlare-nginx]: the verdict is [cloudflare]. *)
Lemma identify_cdn_provider_first_match_witness :
  exists verdict,
    runs_to (display_cdn_provider demo_world "a.example") (inr verdict)
            [EvResolve "a.example"; EvGet (probe_url "a.example") (Some 5)] /\
    (forall name,
        verdict = PyStr name <->
        first_catalog_match COMMON_CDN_NAMES "CloudFlare-nginx" name).
Proof.
  destruct (identify_cdn_provider_first_match demo_world "a.example"
              ["198.51.100.1"; "198.51.100.2"]
              {| status_code := 200;
                 headers := [("Content-Type", "text/html"); ("server", "CloudFlare-nginx")];
                 json := None |})
    as (verdict & Hd & _ & Hname & _).
  - reflexivity.
  - simpl. lia.
  - split; [reflexivity | simpl; lia].
  - exists verdict. split; [exact Hd | exact Hname].
Defined.

(* ================================================================== *)
(** ** Every function of the program is framed *)

Lemma framed_print (m : message) : framed (print m).
Proof. apply framed_emit. Qed.

Lemma framed_post w api_key url payload : framed (post w api_key url payload).
Proof. eexists _, [EvPost url api_key payload]. intros tr. reflexivity. Qed.

Lemma to_excel_written w file_path rows :
  to_excel_fails w file_path = false ->
  runs_to (to_excel w file_path rows) (inr tt) [EvToExcel file_path rows].
Proof. intros H tr. unfold to_excel. now rewrite H. Qed.

Lemma to_excel_raises w file_path rows :
  to_excel_fails w file_path = true ->
  runs_to (to_excel w file_path rows) (inl OSError) [].
Proof. intros H tr. unfold to_excel. now rewrite H, app_nil_r. Qed.

Lemma framed_to_excel w file_path rows : framed (to_excel w file_path rows).
Proof.
  destruct (to_excel_fails w file_path) eqn:E.
  - exists (inl OSError), []. now apply to_excel_raises.
  - exists (inr tt), [EvToExcel file_path rows]. now apply to_excel_written.
Qed.

Create HintDb frames.

#[local] Hint Resolve framed_ret framed_raise framed_emit framed_print
  framed_lift framed_bind framed_try framed_raise_for_status
  framed_resolve framed_get framed_post framed_reverse framed_to_excel
  framed_get_ip_location_with_ip_api : frames.

#[local] Hint Extern 2 (framed (match ?x with _ => _ end)) => destruct x : frames.

Section Framed.

Variable w : World.

Lemma framed_check_cdn_usage hostname : framed (check_cdn_usage w hostname).
Proof. unfold check_cdn_usage. auto with frames. Qed.

Lemma framed_identify_cdn_provider hostname :
  framed (identify_cdn_provider w hostname).
Proof. unfold identify_cdn_provider. auto 8 with frames. Qed.

Lemma framed_get_ip_location ip_address : framed (get_ip_location w ip_address).
Proof. apply never_raises_framed, get_ip_location_returns. Qed.

#[local] Hint Resolve framed_check_cdn_usage framed_identify_cdn_provider
  framed_get_ip_location : frames.

Lemma framed_display_cdn_provider hostname :
  framed (display_cdn_provider w hostname).
Proof. unfold display_cdn_provider. auto with frames. Qed.

#[local] Hint Resolve framed_display_cdn_provider : frames.

Lemma framed_display_item index it table : framed (display_item w index it table).
Proof. unfold display_item. auto 7 with frames. Qed.

Lemma framed_display_loop items :
  forall index table, framed (display_loop w index items table).
Proof.
  induction items as [|it rest IH]; intros index table; simpl.
  - apply framed_ret.
  - apply framed_bind; [apply framed_display_item | intros table'; apply IH].
Qed.

Lemma framed_display_results resp start_page result_count query_term :
  framed (display_results w resp start_page result_count query_term).
Proof.
  unfold display_results.
  pose proof framed_display_loop. auto 8 with frames.
Qed.

Lemma framed_export_item index it : framed (export_item w index it).
Proof. unfold export_item. auto 8 with frames. Qed.

Lemma framed_export_loop items : forall index, framed (export_loop w index items).
Proof.
  induction items as [|it rest IH]; intros index; simpl.
  - apply framed_ret.
  - apply framed_bind; [apply framed_export_item | intros r].
    apply framed_bind; [apply IH | intros rows; apply framed_ret].
Qed.

Lemma framed_export_to_excel resp query_term :
  framed (export_to_excel w resp query_term).
Proof.
  unfold export_to_excel.
  pose proof framed_export_loop. auto 8 with frames.
Qed.

Lemma framed_store_to_database results : framed (store_to_database results).
Proof. unfold store_to_database. auto 8 with frames. Qed.

Lemma framed_connect_to_database db_name : framed (connect_to_database db_name).
Proof. unfold connect_to_database. auto 8 with frames. Qed.

Lemma framed_perform_search api_key query result_count start_page :
  framed (perform_search w api_key query result_count start_page).
Proof. unfold perform_search. auto 9 with frames. Qed.

Lemma framed_main api_key a : framed (main w api_key a).
Proof.
  unfold main.
  pose proof framed_perform_search. pose proof framed_display_results.
  pose proof framed_connect_to_database. pose proof framed_store_to_database.
  pose proof framed_export_to_excel.
  destruct (search a) as [query|]; [|apply framed_print].
  destruct (String.eqb query ""); [apply framed_print|].
  auto 12 with frames.
Qed.

End Framed.

(** A framed computation is known from its run on the empty trace. *)
Lemma runs_to_from_nil {A} (m : M A) r evs :
  framed m -> m [] = (r, evs) -> runs_to m r evs.
Proof.
  intros (r' & evs' & H) E. rewrite (H []) in E. simpl in E.
  injection E as -> ->. exact H.
Qed.

(* ================================================================== *)
(** ** A probe that fails *)




(* ================================================================== *)
(** ** The gate on the number of addresses *)

(** C3, at the input where the code departs from it.  c.example has one
    A record.  The table path resolves it, shows 未知 and sends no probe;
    the spreadsheet path does not resolve it, sends the probe and writes
    the provider the probe found. *)
Theorem export_probes_single_address_host :
  multiplicity demo_world "c.example" = Some 1 /\
  runs_to (display_cdn_provider demo_world "c.example") (inr (PyStr UNKNOWN_LABEL))
          [EvResolve "c.example"] /\
  runs_to (export_item demo_world 0 item_C)
          (inr {| r_index := 1; r_hostname := "c.example"; r_ip := "2.2.2.2";
                  r_port := 80; r_location := PyStr "Paris, France";
                  r_cdn := PyStr "cloudflare" |})
          [EvPrint MsgQuerying;
           EvGet (ip_api_url "2.2.2.2") None;
           EvPrint (MsgIpApiError "2.2.2.2" (RequestException ConnectionError));
           EvReverse "2.2.2.2";
           EvPrint MsgClear;
           EvGet (probe_url "c.example") (Some 5)] /\
  runs_to (export_to_excel demo_world (demo_page [item_C]) "q") (inr tt)
          [EvPrint MsgQuerying;
           EvGet (ip_api_url "2.2.2.2") None;
           EvPrint (MsgIpApiError "2.2.2.2" (RequestException ConnectionError));
           EvReverse "2.2.2.2";
           EvPrint MsgClear;
           EvGet (probe_url "c.example") (Some 5);
           EvToExcel "/home/user/quake_results_q.xlsx"
                     [{| r_index := 1; r_hostname := "c.example"; r_ip := "2.2.2.2";
                         r_port := 80; r_location := PyStr "Paris, France";
                         r_cdn := PyStr "cloudflare" |}];
           EvPrint (MsgExported "quake_results_q.xlsx")].
Proof.
  split; [reflexivity|]. split; [|split].
  - apply runs_to_from_nil; [apply framed_display_cdn_provider | reflexivity].
  - apply runs_to_from_nil; [apply framed_export_item | reflexivity].
  - apply runs_to_from_nil; [apply framed_export_to_excel | reflexivity].
Qed.

(* ================================================================== *)
(** ** The table *)

Lemma valid_positions_items (items : list item) :
  forall index, map snd (valid_positions index items) = filter has_http items.
Proof.
  induction items as [|it rest IH]; intros index; simpl; [reflexivity|].
  rewrite map_app, IH. now destruct (has_http it).
Qed.

Lemma valid_positions_bound (items : list item) :
  forall index p, In p (valid_positions index items) -> index <= fst p.
Proof.
  induction items as [|it rest IH]; intros index p; simpl; [intros []|].
  intros H. apply in_app_or in H as [H|H].
  - destruct (has_http it); [|destruct H].
    destruct H as [<-|[]]. simpl. lia.
  - apply IH in H. lia.
Qed.

(** Positions grow along the page. *)
Lemma valid_positions_increasing (items : list item) :
  forall index, StronglySorted Z.lt (map fst (valid_positions index items)).
Proof.
  induction items as [|it rest IH]; intros index; simpl; [constructor|].
  destruct (has_http it); simpl; [|apply IH].
  constructor; [apply IH|].
  apply Forall_forall. intros z Hz. apply in_map_iff in Hz as (p & <- & Hp).
  apply valid_positions_bound in Hp. lia.
Qed.

(** On a page without invalid records the positions are [n+1 .. n+N]. *)
Lemma valid_positions_all_valid (items : list item) :
  (forall it, In it items -> has_http it = true) ->
  forall n,
    map fst (valid_positions (Z.of_nat n) items) =
    map Z.of_nat (seq n (List.length items)).
Proof.
  induction items as [|it rest IH]; intros Hall n; simpl; [reflexivity|].
  rewrite (Hall it) by now left. simpl. f_equal.
  rewrite <- IH by (intros; apply Hall; now right).
  now rewrite Nat2Z.inj_succ, Z.add_1_r.
Qed.

Lemma filter_all_valid (items : list item) :
  (forall it, In it items -> has_http it = true) ->
  filter has_http items = items.
Proof.
  induction items as [|it rest IH]; intros Hall; simpl; [reflexivity|].
  rewrite (Hall it) by now left. f_equal. apply IH.
  intros; apply Hall; now right.
Qed.

Section Table.

Variable w : World.

Lemma display_cdn_provider_returns hostname answers :
  resolver_resolve w hostname = inr answers ->
  exists cdn evs, runs_to (display_cdn_provider w hostname) (inr cdn) evs.
Proof.
  intros Hdns. destruct (Z_lt_dec (Z.of_nat (List.length answers)) 2) as [Hlen|Hlen].
  - eexists _, _. now apply display_cdn_provider_few with answers.
  - destruct (identify_cdn_provider_returns w hostname
                (resolved_not_refused _ _ _ Hdns)) as [v Hv].
    exists v. eexists. apply display_cdn_provider_many with answers; auto. lia.
Qed.

Lemma display_item_valid index it h table cdn location evs1 evs2 :
  http (service it) = Some h ->
  runs_to (display_cdn_provider w (host h)) (inr cdn) evs1 ->
  runs_to (get_ip_location w (ip it)) (inr location) evs2 ->
  runs_to (display_item w index it table)
          (inr (table ++ [{| r_index := index;
                             r_hostname := host h;
                             r_ip := ip it;
                             r_port := port it;
                             r_location := py_or location (PyStr UNKNOWN_LABEL);
                             r_cdn := cdn |}]))
          (evs1 ++ evs2).
Proof.
  intros Hh H1 H2 tr. unfold display_item. rewrite Hh. run.
  rewrite H1, H2. closes.
Qed.

Lemma display_item_dns_error index it h table f :
  http (service it) = Some h ->
  resolver_resolve w (host h) = inl f ->
  runs_to (display_item w index it table) (inl (DNSException f))
          [EvResolve (host h)].
Proof.
  intros Hh Hdns tr. unfold display_item. rewrite Hh. run.
  now rewrite (display_cdn_provider_dns_error _ _ _ Hdns).
Qed.

(** An invalid record: one warning, no row, no exception. *)
Lemma display_item_skip index it table :
  http (service it) = None ->
  runs_to (display_item w index it table) (inr table)
          [EvPrint (MsgSkipWarning index)].
Proof. intros Hh tr. unfold display_item. now rewrite Hh. Qed.

Lemma dns_ok_cons it rest :
  dns_ok w (it :: rest) -> dns_ok w rest.
Proof. intros H it' h Hin. apply H. now right. Qed.

(** When no DNS lookup raises, the loop returns: it adds one row for each
    valid record, in order, numbered with the position of the record. *)
Lemma display_loop_rows (items : list item) :
  dns_ok w items ->
  forall index table,
  exists evs rows,
    runs_to (display_loop w index items table) (inr (table ++ rows)) evs /\
    Forall2 (displayed w) (valid_positions index items) rows.
Proof.
  induction items as [|it rest IH]; intros Hdns index table.
  - exists [], []. split; [|constructor].
    rewrite app_nil_r. apply runs_to_ret.
  - specialize (IH (dns_ok_cons _ _ Hdns)).
    destruct (http (service it)) as [h|] eqn:Hh.
    + destruct (Hdns it h (or_introl eq_refl) Hh) as [answers Hans].
      destruct (display_cdn_provider_returns _ _ Hans) as (cdn & evs1 & Hcdn).
      destruct (get_ip_location_returns w (ip it)) as (location & evs2 & Hloc).
      pose proof (display_item_valid index it h table _ _ _ _ Hh Hcdn Hloc) as Hitem.
      match type of Hitem with
      | runs_to _ (inr (_ ++ [?x])) _ => set (r := x) in *
      end.
      destruct (IH (index + 1) (table ++ [r])) as (evs & rows & Hrun & Hrows).
      exists ((evs1 ++ evs2) ++ evs), (r :: rows). split.
      * simpl display_loop. eapply runs_to_bind; [exact Hitem|].
        now rewrite <- app_assoc in Hrun.
      * simpl. unfold has_http. rewrite Hh. simpl. constructor; [|exact Hrows].
        repeat split; simpl; eauto.
        unfold item_host. now rewrite Hh.
    + destruct (IH (index + 1) table) as (evs & rows & Hrun & Hrows).
      exists ([EvPrint (MsgSkipWarning index)] ++ evs), rows. split.
      * simpl display_loop. eapply runs_to_bind; [|exact Hrun].
        now apply display_item_skip.
      * simpl. unfold has_http. rewrite Hh. exact Hrows.
Qed.

Lemma display_results_of_loop resp start_page result_count query_term table evs :
  runs_to (display_loop w 1 (data resp) []) (inr table) evs ->
  runs_to (display_results w resp start_page result_count query_term) (inr tt)
          (([EvPrint MsgBlank; EvPrint (MsgPagination (meta_pagination resp));
             EvPrint (MsgQuery query_term)] ++ evs) ++ [EvPrint (MsgTable table)]).
Proof.
  intros H tr. unfold display_results. run. rewrite H. closes.
Qed.

Lemma display_results_of_loop_raise resp start_page result_count query_term e evs :
  runs_to (display_loop w 1 (data resp) []) (inl e) evs ->
  runs_to (display_results w resp start_page result_count query_term) (inl e)
          ([EvPrint MsgBlank; EvPrint (MsgPagination (meta_pagination resp));
            EvPrint (MsgQuery query_term)] ++ evs).
Proof.
  intros H tr. unfold display_results. run. rewrite H. closes.
Qed.

Lemma displayed_indices rows :
  forall ps, Forall2 (displayed w) ps rows -> map r_index rows = map fst ps.
Proof.
  induction rows as [|r rows IH]; intros ps H; inversion H; subst; simpl.
  - reflexivity.
  - f_equal; [|now apply IH]. match goal with Hd : displayed _ _ _ |- _ => apply Hd end.
Qed.


End Table.

Lemma dns_ok_ABC : dns_ok demo_world [item_A; item_B; item_C].
Proof.
  intros it h Hin Hh. simpl in Hin.
  destruct Hin as [<-|[<-|[<-|[]]]]; inversion Hh; subst; eexists; reflexivity.
Qed.



(* ================================================================== *)
(** ** Failures while the table is built *)

Section Failures.

Variable w : World.

Lemma display_item_returns index it table :
  dns_ok w [it] ->
  exists table' evs, runs_to (display_item w index it table) (inr table') evs.
Proof.
  intros Hdns. destruct (http (service it)) as [h|] eqn:Hh.
  - destruct (Hdns it h (or_introl eq_refl) Hh) as [answers Hans].
    destruct (display_cdn_provider_returns _ _ _ Hans) as (cdn & evs1 & Hcdn).
    destruct (get_ip_location_returns w (ip it)) as (location & evs2 & Hloc).
    eexists _, _. exact (display_item_valid _ index it h table _ _ _ _ Hh Hcdn Hloc).
  - eexists _, _. now apply display_item_skip.
Qed.

(** A DNS error at a record stops the loop there: the lookup that raised
    is the last thing the loop does. *)
Lemma display_loop_dns_error before it h after f :
  dns_ok w before ->
  http (service it) = Some h ->
  resolver_resolve w (host h) = inl f ->
  forall index table,
  exists evs,
    runs_to (display_loop w index (before ++ it :: after) table)
            (inl (DNSException f)) (evs ++ [EvResolve (host h)]).
Proof.
  intros Hdns Hh Hf. induction before as [|b before IH]; intros index table.
  - exists []. simpl display_loop. apply runs_to_bind_raise.
    now apply display_item_dns_error.
  - destruct (display_item_returns index b table) as (table' & evs1 & Hb).
    { intros it' h' [<-|[]] Hh'. apply (Hdns b h'); [now left | exact Hh']. }
    destruct (IH (dns_ok_cons _ _ _ Hdns) (index + 1) table') as (evs & Hrun).
    exists (evs1 ++ evs). rewrite <- app_assoc.
    simpl display_loop. eapply runs_to_bind; [exact Hb | exact Hrun].
Qed.

Lemma displayed_location p r :
  displayed w p r ->
  primary_failure w (ip (snd p)) -> secondary_failed w (ip (snd p)) ->
  r_location r = PyStr UNKNOWN_LABEL.
Proof.
  intros (_ & _ & (location & evs & Hrun & ->) & _) H1 H2.
  destruct (get_ip_location_absent _ _ H1 H2) as (evs' & Hrun' & _).
  destruct (runs_to_fun _ _ _ _ _ Hrun Hrun') as [E _].
  injection E as ->. reflexivity.
Qed.

Lemma displayed_probe_failed p r answers :
  displayed w p r ->
  resolver_resolve w (r_hostname r) = inr answers ->
  2 <= Z.of_nat (List.length answers) ->
  probe_failed w (r_hostname r) ->
  r_cdn r = PyNone.
Proof.
  intros (_ & _ & _ & (evs & Hrun)) Hdns Hlen Hfail.
  pose proof (display_cdn_provider_many _ _ _ _ Hdns Hlen
                (identify_cdn_provider_failed _ _ Hfail
                   (resolved_not_refused _ _ _ Hdns))) as Hrun'.
  destruct (runs_to_fun _ _ _ _ _ Hrun Hrun') as [E _]. congruence.
Qed.


End Failures.



(* ================================================================== *)
(** ** The spreadsheet and the store *)

Section Sinks.

Variable w : World.

Lemma export_item_invalid index it :
  http (service it) = None ->
  runs_to (export_item w index it) (inl (KeyError "http")) [].
Proof.
  intros Hh tr. unfold export_item, item_host. rewrite Hh. run.
  now rewrite app_nil_r.
Qed.

Lemma export_item_valid index it h :
  http (service it) = Some h ->
  ~ probe_refused w (host h) ->
  exists r evs,
    runs_to (export_item w index it) (inr r) evs /\ exported w index it r.
Proof.
  intros Hh Hparse.
  destruct (get_ip_location_returns w (ip it)) as (location & evs1 & Hloc).
  destruct (identify_cdn_provider_returns w (host h) Hparse) as (cdn & Hcdn).
  exists {| r_index := index + 1; r_hostname := host h; r_ip := ip it;
            r_port := port it; r_location := location; r_cdn := cdn |}.
  exists (evs1 ++ [EvGet (probe_url (host h)) (Some 5)]). split.
  - intros tr. unfold export_item, item_host. rewrite Hh. run.
    rewrite Hloc, Hcdn. closes.
  - unfold exported, row_of_item, item_host. rewrite Hh. simpl.
    repeat split; eauto.
Qed.

(** A hostname that urllib3 refuses stops the export at its record, after
    the geolocation of the record. *)
Lemma export_item_refused index it h :
  http (service it) = Some h ->
  probe_refused w (host h) ->
  exists evs, runs_to (export_item w index it) (inl LocationParseError) evs.
Proof.
  intros Hh Href.
  destruct (get_ip_location_returns w (ip it)) as (location & evs1 & Hloc).
  exists (evs1 ++ [EvGet (probe_url (host h)) (Some 5)]).
  intros tr. unfold export_item, item_host. rewrite Hh. run.
  rewrite Hloc, (identify_cdn_provider_refused _ _ Href). closes.
Qed.

Lemma probes_parse_tail it rest :
  probes_parse w (it :: rest) -> probes_parse w rest.
Proof. intros H it' h Hin. apply H. now right. Qed.

(** On a page whose lookups do not raise, no hostname is refused. *)
Lemma dns_ok_probes_parse (items : list item) :
  dns_ok w items -> probes_parse w items.
Proof.
  intros Hdns it h Hin Hh. destruct (Hdns it h Hin Hh) as [answers Hans].
  now apply resolved_not_refused with answers.
Qed.

(** On a page of valid records without a refused hostname the
    comprehension returns a row for each record. *)
Lemma export_loop_rows (items : list item) :
  (forall it, In it items -> has_http it = true) ->
  probes_parse w items ->
  forall index,
  exists evs rows,
    runs_to (export_loop w index items) (inr rows) evs /\
    Forall2_indexed (exported w) index items rows.
Proof.
  induction items as [|it rest IH]; intros Hall Hparse index.
  - exists [], []. split; [apply runs_to_ret | constructor].
  - destruct (http (service it)) as [h|] eqn:Hh.
    2:{ specialize (Hall it (or_introl eq_refl)). unfold has_http in Hall.
        rewrite Hh in Hall. discriminate. }
    destruct (export_item_valid index it h Hh (Hparse it h (or_introl eq_refl) Hh))
      as (r & evs1 & Hr & Hex).
    destruct (IH (fun it' H => Hall it' (or_intror H))
                 (probes_parse_tail _ _ Hparse) (index + 1))
      as (evs & rows & Hrun & Hrows).
    exists (evs1 ++ evs ++ []), (r :: rows). split; [|now constructor].
    simpl export_loop. eapply runs_to_bind; [exact Hr|].
    eapply runs_to_bind; [exact Hrun | apply runs_to_ret].
Qed.

(** The comprehension stops at the record [it] that follows the records
    [before], with the error [e], having done what it does for [before]. *)
Lemma export_loop_stops before it after e :
  (forall index, runs_to (export_item w index it) (inl e) []) ->
  (forall b, In b before -> has_http b = true) ->
  probes_parse w before ->
  forall index,
  exists evs rows,
    runs_to (export_loop w index before) (inr rows) evs /\
    runs_to (export_loop w index (before ++ it :: after)) (inl e) evs.
Proof.
  intros Hit. induction before as [|b before IH]; intros Hall Hparse index.
  - exists [], []. split; [apply runs_to_ret|].
    simpl. apply runs_to_bind_raise, Hit.
  - destruct (http (service b)) as [h|] eqn:Hh.
    2:{ specialize (Hall b (or_introl eq_refl)). unfold has_http in Hall.
        rewrite Hh in Hall. discriminate. }
    destruct (export_item_valid index b h Hh (Hparse b h (or_introl eq_refl) Hh))
      as (r & evs1 & Hr & _).
    destruct (IH (fun b' H => Hall b' (or_intror H))
                 (probes_parse_tail _ _ Hparse) (index + 1))
      as (evs & rows & Hret & Hraise).
    exists (evs1 ++ evs), (r :: rows). split.
    + simpl export_loop. eapply runs_to_bind; [exact Hr|].
      rewrite <- (app_nil_r evs).
      eapply runs_to_bind; [exact Hret | apply runs_to_ret].
    + simpl app. simpl export_loop. eapply runs_to_bind; [exact Hr|].
      now apply runs_to_bind_raise.
Qed.

(** The records up to the first one that stops the comprehension: a
    record without the http block, or one whose hostname is refused. *)
Lemma export_first_failure (items : list item) :
  ((forall it, In it items -> has_http it = true) /\ probes_parse w items) \/
  exists before it after,
    items = before ++ it :: after /\
    (forall b, In b before -> has_http b = true) /\
    probes_parse w before /\
    (has_http it = false \/
     exists h, http (service it) = Some h /\ probe_refused w (host h)).
Proof.
  induction items as [|it rest IH].
  - left. split; [intros it [] | intros it h []].
  - destruct (http (service it)) as [h|] eqn:Hh.
    2:{ right. exists [], it, rest. split; [reflexivity|].
        split; [intros ? []|]. split; [intros ? ? []|].
        left. unfold has_http. now rewrite Hh. }
    destruct (probe_refused_dec w (host h)) as [Href|Hparse].
    { right. exists [], it, rest. split; [reflexivity|].
      split; [intros ? []|]. split; [intros ? ? []|].
      right. now exists h. }
    assert (Hvalid : has_http it = true) by (unfold has_http; now rewrite Hh).
    destruct IH as [[Hall Hp]|(before & bad & after & -> & Hall & Hp & Hbad)].
    + left. split.
      * intros it' [<-|Hin]; auto.
      * intros it' h' [<-|Hin] Hh'; [|now apply (Hp it' h')].
        rewrite Hh in Hh'. now injection Hh' as <-.
    + right. exists (it :: before), bad, after. split; [reflexivity|].
      split; [intros b [<-|Hin]; auto|]. split; [|exact Hbad].
      intros it' h' [<-|Hin] Hh'; [|now apply (Hp it' h')].
      rewrite Hh in Hh'. now injection Hh' as <-.
Qed.

(** The comprehension returns its rows, or raises [KeyError] for a record
    without the http block, or lets the [LocationParseError] of a refused
    hostname through. *)
Lemma export_loop_outcome (items : list item) (index : Z) :
  exists r evs,
    runs_to (export_loop w index items) r evs /\
    match r with
    | inr rows =>
        (forall it, In it items -> has_http it = true) /\ probes_parse w items /\
        Forall2_indexed (exported w) index items rows
    | inl e =>
        (e = KeyError "http" /\ exists it, In it items /\ has_http it = false) \/
        (e = LocationParseError /\ ~ probes_parse w items)
    end.
Proof.
  destruct (export_first_failure items)
    as [[Hall Hp]|(before & it & after & -> & Hall & Hp & [Hbad|(h & Hh & Href)])].
  - destruct (export_loop_rows _ Hall Hp index) as (evs & rows & Hrun & Hrows).
    exists (inr rows), evs. auto.
  - destruct (export_loop_stops before it after (KeyError "http")) with (index := index)
      as (evs & rows & _ & Hraise); auto.
    { intros i. apply export_item_invalid. unfold has_http in Hbad.
      now destruct (http (service it)). }
    exists (inl (KeyError "http")), evs. split; [exact Hraise|]. left.
    split; [reflexivity|]. exists it. split; [|exact Hbad].
    apply in_or_app. right. now left.
  - destruct (export_item_refused 0 it h Hh Href) as (evs0 & _).
    destruct (get_ip_location_returns w (ip it)) as (location & evs1 & Hloc).
    assert (Hitem : forall i,
               runs_to (export_item w i it) (inl LocationParseError)
                       (evs1 ++ [EvGet (probe_url (host h)) (Some 5)])).
    { intros i tr. unfold export_item, item_host. rewrite Hh. run.
      rewrite Hloc, (identify_cdn_provider_refused _ _ Href). closes. }
    clear evs0.
    assert (Hstop : forall before' i,
               (forall b, In b before' -> has_http b = true) ->
               probes_parse w before' ->
               exists evs,
                 runs_to (export_loop w i (before' ++ it :: after))
                         (inl LocationParseError) evs).
    { induction before' as [|b before' IH]; intros i Hall' Hp'.
      - eexists. simpl. apply runs_to_bind_raise, Hitem.
      - destruct (http (service b)) as [hb|] eqn:Hb.
        2:{ specialize (Hall' b (or_introl eq_refl)). unfold has_http in Hall'.
            rewrite Hb in Hall'. discriminate. }
        destruct (export_item_valid i b hb Hb (Hp' b hb (or_introl eq_refl) Hb))
          as (r & e1 & Hr & _).
        destruct (IH (i + 1) (fun b' H => Hall' b' (or_intror H))
                     (probes_parse_tail _ _ Hp')) as (evs & Hrun).
        exists (e1 ++ evs). simpl app. simpl export_loop.
        eapply runs_to_bind; [exact Hr|]. now apply runs_to_bind_raise. }
    destruct (Hstop before index Hall Hp) as (evs & Hrun).
    exists (inl LocationParseError), evs. split; [exact Hrun|]. right.
    split; [reflexivity|]. intros Hparse.
    apply (Hparse it h); [apply in_or_app; right; now left | exact Hh | exact Href].
Qed.

Lemma export_to_excel_of_loop resp query_term rows evs :
  sheet_writable w query_term ->
  runs_to (export_loop w 0 (data resp)) (inr rows) evs ->
  runs_to (export_to_excel w resp query_term) (inr tt)
          (evs ++ [EvToExcel (os_path_join (getcwd w) (export_file_name query_term)) rows;
                   EvPrint (MsgExported (export_file_name query_term))]).
Proof.
  unfold sheet_writable. intros Hw H tr. unfold export_to_excel. run.
  rewrite H, Hw. closes.
Qed.

(** When the spreadsheet cannot be written the export raises [OSError]
    after its lookups. *)
Lemma export_to_excel_of_loop_oserror resp query_term rows evs :
  ~ sheet_writable w query_term ->
  runs_to (export_loop w 0 (data resp)) (inr rows) evs ->
  runs_to (export_to_excel w resp query_term) (inl OSError) evs.
Proof.
  unfold sheet_writable. intros Hw H tr. unfold export_to_excel. run.
  rewrite H.
  destruct (to_excel_fails w (os_path_join (getcwd w) (export_file_name query_term)));
    [reflexivity | now destruct Hw].
Qed.

Lemma export_to_excel_of_loop_raise resp query_term e evs :
  runs_to (export_loop w 0 (data resp)) (inl e) evs ->
  runs_to (export_to_excel w resp query_term) (inl e) evs.
Proof. intros H tr. unfold export_to_excel. run. now rewrite H. Qed.

Lemma rows_to_insert_keyerror (items : list item) :
  (exists it, In it items /\ has_http it = false) ->
  rows_to_insert items = inl (KeyError "http").
Proof.
  induction items as [|it rest IH]; intros (bad & Hin & Hbad); [destruct Hin|].
  simpl. unfold item_host. destruct (http (service it)) as [h|] eqn:Hh; [|reflexivity].
  rewrite IH; [reflexivity|].
  exists bad. split; [|exact Hbad]. destruct Hin as [<-|Hin]; [|exact Hin].
  unfold has_http in Hbad. rewrite Hh in Hbad. discriminate.
Qed.

Lemma store_to_database_keyerror (items : list item) :
  (exists it, In it items /\ has_http it = false) ->
  runs_to (store_to_database items) (inl (KeyError "http")) [].
Proof.
  intros H tr. unfold store_to_database. rewrite (rows_to_insert_keyerror _ H).
  run. now rewrite app_nil_r.
Qed.

Lemma store_to_database_rows (items : list item) (rows : list db_row) :
  rows_to_insert items = inr rows ->
  runs_to (store_to_database items) (inr tt) [EvExecuteMany rows; EvCommit].
Proof.
  intros H tr. unfold store_to_database. rewrite H. run. closes.
Qed.

(** When the search and the table went through, [main] connects to the
    database and then runs into what [store_to_database] raises. *)
Lemma main_store_raises api_key a query resp evs0 evs e :
  search a = Some query -> query <> "" ->
  runs_to (perform_search w api_key query (size a) (page a)) (inr resp) evs0 ->
  runs_to (display_results w resp (page a) (size a) query) (inr tt) evs ->
  runs_to (store_to_database (data resp)) (inl e) [] ->
  runs_to (main w api_key a) (inl e)
          (evs0 ++ evs ++ [EvDbConnect "quake_results.db"; EvCreateTable; EvCommit]).
Proof.
  intros Hs Hq Hsearch Hdisplay Hstore tr. unfold main. rewrite Hs.
  apply String.eqb_neq in Hq. rewrite Hq. run.
  rewrite Hsearch, Hdisplay. unfold connect_to_database. run.
  rewrite Hstore. closes.
Qed.


End Sinks.



(* ================================================================== *)
(** ** The table and the spreadsheet side by side *)

Section SideBySide.

Variable w : World.

Lemma rows_agree_all (items : list item) :
  (forall it, In it items -> has_http it = true) ->
  forall index table rows,
    Forall2 (displayed w) (valid_positions (index + 1) items) table ->
    Forall2_indexed (exported w) index items rows ->
    Forall2 rows_agree table rows.
Proof.
  induction items as [|it rest IH]; intros Hall index table rows Hd He.
  - inversion He; subst. simpl in Hd. inversion Hd; subst. constructor.
  - inversion He as [|? ? r ? rows' Hr He']; subst.
    simpl in Hd. rewrite (Hall it) in Hd by now left.
    inversion Hd as [|? t ? table' Ht Hd']; subst.
    constructor; [|apply (IH (fun it' H => Hall it' (or_intror H)) (index + 1));
                   assumption].
    destruct Ht as (Hi & (Hh & Hip & Hp) & (location & evs & Hloc & Hl) & _).
    destruct Hr as (Hi' & (Hh' & Hip' & Hp') & (evs' & Hloc') & _).
    simpl in *. unfold rows_agree. repeat split; try congruence.
    destruct (runs_to_fun _ _ _ _ _ Hloc Hloc') as [E _]. congruence.
Qed.

Lemma rows_to_insert_table (items : list item) :
  (forall it, In it items -> has_http it = true) ->
  forall index table,
    Forall2 (displayed w) (valid_positions index items) table ->
    rows_to_insert items = inr (map db_row_of table).
Proof.
  induction items as [|it rest IH]; intros Hall index table Hd.
  - simpl in Hd. inversion Hd; subst. reflexivity.
  - simpl in Hd. rewrite (Hall it) in Hd by now left.
    inversion Hd as [|? t ? table' Ht Hd']; subst.
    destruct Ht as (_ & (Hh & Hip & Hp) & _). simpl in Hh, Hip, Hp.
    simpl. rewrite Hh.
    rewrite (IH (fun it' H => Hall it' (or_intror H)) _ _ Hd').
    unfold db_row_of. now rewrite Hip, Hp.
Qed.

Lemma rows_agree_cdn_all (items : list item) :
  (forall it, In it items -> has_http it = true) ->
  forall index table rows,
    Forall2 (displayed w) (valid_positions (index + 1) items) table ->
    Forall2_indexed (exported w) index items rows ->
    Forall2 (rows_agree_cdn w) table rows.
Proof.
  induction items as [|it rest IH]; intros Hall index table rows Hd He.
  - inversion He; subst. simpl in Hd. inversion Hd; subst. constructor.
  - pose proof (rows_agree_all _ Hall _ _ _ Hd He) as Hagree.
    inversion He as [|? ? r ? rows' Hr He']; subst.
    simpl in Hd. rewrite (Hall it) in Hd by now left.
    inversion Hd as [|? t ? table' Ht Hd']; subst.
    inversion Hagree as [|? ? ? ? Htr _]; subst.
    constructor; [|apply (IH (fun it' H => Hall it' (or_intror H)) (index + 1));
                   assumption].
    split; [exact Htr|]. intros answers Hdns Hlen.
    destruct Ht as (_ & _ & _ & (evs & Hcdn)).
    destruct Hr as (_ & _ & _ & Hid).
    destruct Htr as (_ & Hhost & _). rewrite Hhost in Hcdn.
    pose proof (display_cdn_provider_many _ _ _ _ Hdns Hlen Hid) as Hcdn'.
    destruct (runs_to_fun _ _ _ _ _ Hcdn Hcdn') as [E _]. congruence.
Qed.


End SideBySide.

Lemma dns_ok_D : dns_ok demo_world [item_D].
Proof. intros it h [<-|[]] [= <-]. eexists. reflexivity. Qed.

Lemma dns_ok_AD : dns_ok demo_world [item_A; item_D].
Proof. intros it h [<-|[<-|[]]] [= <-]; eexists; reflexivity. Qed.



(* ================================================================== *)
(** ** Two runs *)

Section TwoRuns.

Variables w1 w2 : World.

Lemma check_cdn_usage_ext hostname :
  resolver_resolve w1 hostname = resolver_resolve w2 hostname ->
  forall tr, check_cdn_usage w1 hostname tr = check_cdn_usage w2 hostname tr.
Proof. intros H tr. unfold check_cdn_usage, bind, resolve. now rewrite H. Qed.

Lemma identify_cdn_provider_ext hostname :
  requests_get w1 (probe_url hostname) (Some 5) =
  requests_get w2 (probe_url hostname) (Some 5) ->
  forall tr, identify_cdn_provider w1 hostname tr = identify_cdn_provider w2 hostname tr.
Proof.
  intros H tr. unfold identify_cdn_provider, try_except, bind, get. now rewrite H.
Qed.

Lemma get_ip_location_ext ip_address :
  requests_get w1 (ip_api_url ip_address) None =
  requests_get w2 (ip_api_url ip_address) None ->
  geolocator_reverse w1 ip_address = geolocator_reverse w2 ip_address ->
  forall tr, get_ip_location w1 ip_address tr = get_ip_location w2 ip_address tr.
Proof.
  intros H1 H2 tr.
  unfold get_ip_location, _get_ip_location_with_ip_api, _get_ip_location_with_geopy,
    try_except, bind, get, reverse.
  now rewrite H1, H2.
Qed.

Lemma display_item_ext index it table :
  same_resolver_results w1 w2 [it] ->
  forall tr, display_item w1 index it table tr = display_item w2 index it table tr.
Proof.
  intros Hsame tr. destruct (Hsame it (or_introl eq_refl)) as (Hh & Hip & Hrev).
  unfold display_item. destruct (http (service it)) as [h|]; [|reflexivity].
  destruct (Hh h eq_refl) as [Hdns Hprobe].
  unfold display_cdn_provider, bind.
  rewrite (check_cdn_usage_ext _ Hdns).
  destruct (check_cdn_usage w2 (host h) tr) as [[e|[|]] tr1]; try reflexivity.
  - rewrite (identify_cdn_provider_ext _ Hprobe).
    destruct (identify_cdn_provider w2 (host h) tr1) as [[e|cdn] tr2];
      [reflexivity|].
    now rewrite (get_ip_location_ext _ Hip Hrev).
  - unfold ret. now rewrite (get_ip_location_ext _ Hip Hrev).
Qed.

Lemma same_resolver_results_tail it rest :
  same_resolver_results w1 w2 (it :: rest) -> same_resolver_results w1 w2 rest.
Proof. intros H it' Hin. apply H. now right. Qed.

Lemma same_resolver_results_head it rest :
  same_resolver_results w1 w2 (it :: rest) -> same_resolver_results w1 w2 [it].
Proof. intros H it' [<-|[]]. apply H. now left. Qed.

Lemma display_loop_ext (items : list item) :
  same_resolver_results w1 w2 items ->
  forall index table tr,
    display_loop w1 index items table tr = display_loop w2 index items table tr.
Proof.
  induction items as [|it rest IH]; intros Hsame index table tr; [reflexivity|].
  simpl. unfold bind.
  rewrite (display_item_ext index it table (same_resolver_results_head _ _ Hsame)).
  destruct (display_item w2 index it table tr) as [[e|table'] tr']; [reflexivity|].
  apply IH. now apply same_resolver_results_tail with it.
Qed.

Lemma display_results_ext resp start_page result_count query_term :
  same_resolver_results w1 w2 (data resp) ->
  forall tr,
    display_results w1 resp start_page result_count query_term tr =
    display_results w2 resp start_page result_count query_term tr.
Proof.
  intros Hsame tr. unfold display_results, bind, print, emit.
  now rewrite (display_loop_ext _ Hsame).
Qed.

Lemma export_item_ext index it :
  same_resolver_results w1 w2 [it] ->
  forall tr, export_item w1 index it tr = export_item w2 index it tr.
Proof.
  intros Hsame tr. destruct (Hsame it (or_introl eq_refl)) as (Hh & Hip & Hrev).
  unfold export_item, item_host. destruct (http (service it)) as [h|]; [|reflexivity].
  destruct (Hh h eq_refl) as [_ Hprobe].
  unfold bind, lift, ret.
  rewrite (get_ip_location_ext _ Hip Hrev).
  destruct (get_ip_location w2 (ip it) tr) as [[e|location] tr1]; [reflexivity|].
  now rewrite (identify_cdn_provider_ext _ Hprobe).
Qed.

Lemma export_loop_ext (items : list item) :
  same_resolver_results w1 w2 items ->
  forall index tr, export_loop w1 index items tr = export_loop w2 index items tr.
Proof.
  induction items as [|it rest IH]; intros Hsame index tr; [reflexivity|].
  simpl. unfold bind.
  rewrite (export_item_ext index it (same_resolver_results_head _ _ Hsame)).
  destruct (export_item w2 index it tr) as [[e|r] tr']; [reflexivity|].
  now rewrite (IH (same_resolver_results_tail _ _ Hsame)).
Qed.

(** C10.  Two runs that meet the same resolver results on the records of
    the page, from whatever traces they start, end the same way and do
    the same things: [display_results] makes the same lookups and prints
    the same table (or raises the same error at the same place), and the
    comprehension of [export_to_excel] makes the same lookups and returns
    the same rows. *)
Theorem enrichment_two_runs
        (resp : api_response) (start_page result_count query_term : string) :
  same_resolver_results w1 w2 (data resp) ->
  (exists r evs,
      runs_to (display_results w1 resp start_page result_count query_term) r evs /\
      runs_to (display_results w2 resp start_page result_count query_term) r evs) /\
  (exists r evs,
      runs_to (display_loop w1 1 (data resp) []) r evs /\
      runs_to (display_loop w2 1 (data resp) []) r evs) /\
  (exists r evs,
      runs_to (export_loop w1 0 (data resp)) r evs /\
      runs_to (export_loop w2 0 (data resp)) r evs).
Proof.
  intros Hsame. split; [|split].
  - destruct (framed_display_results w1 resp start_page result_count query_term)
      as (r & evs & H).
    exists r, evs. split; [exact H|].
    intros tr. rewrite <- (display_results_ext _ _ _ _ Hsame). apply H.
  - destruct (framed_display_loop w1 (data resp) 1 []) as (r & evs & H).
    exists r, evs. split; [exact H|].
    intros tr. rewrite <- (display_loop_ext _ Hsame). apply H.
  - destruct (framed_export_loop w1 (data resp) 0) as (r & evs & H).
    exists r, evs. split; [exact H|].
    intros tr. rewrite <- (export_loop_ext _ Hsame). apply H.
Qed.

End TwoRuns.

Lemma same_resolver_results_demo :
  same_resolver_results demo_world demo_world' [item_A; item_B; item_C].
Proof.
  intros it [<-|[<-|[<-|[]]]]; (split; [|split]); try reflexivity;
    intros h [= <-]; split; reflexivity.
Qed.

(** The two small worlds give the same table for the page [A; B; C]. *)
Lemma enrichment_two_runs_witness :
  exists r evs,
    runs_to (display_loop demo_world 1 [item_A; item_B; item_C] []) r evs /\
    runs_to (display_loop demo_world' 1 [item_A; item_B; item_C] []) r evs.
Proof.
  exact (proj1 (proj2 (enrichment_two_runs demo_world demo_world'
                         (demo_page [item_A; item_B; item_C]) "1" "100" "q"
                         same_resolver_results_demo))).
Defined.

(* ================================================================== *)
(** ** The name of the spreadsheet *)

Lemma in_chars_append (c : ascii) (a b : string) :
  In c (list_ascii_of_string (a ++ b)) <->
  In c (list_ascii_of_string a) \/ In c (list_ascii_of_string b).
Proof.
  induction a as [|x a IH]; simpl.
  - tauto.
  - rewrite IH. tauto.
Qed.

(** The three replacements amount to one pass over the characters. *)
Lemma query_filename_one_pass (query_term : string) :
  query_filename query_term = concat_chars filename_char query_term.
Proof.
  unfold query_filename.
  induction query_term as [|c t IH]; [reflexivity|].
  simpl. unfold filename_char.
  destruct (Ascii.eqb c " ") eqn:E1.
  - simpl. now rewrite IH.
  - simpl. destruct (Ascii.eqb c ":") eqn:E2.
    + simpl. exact IH.
    + simpl. destruct (Ascii.eqb c dquote) eqn:E3.
      * simpl. exact IH.
      * simpl. now rewrite IH.
Qed.

Lemma filename_char_kept (c x : ascii) :
  In x (list_ascii_of_string (filename_char c)) ->
  x <> " "%char /\ x <> ":"%char /\ x <> dquote /\ (x = "_"%char \/ x = c).
Proof.
  unfold filename_char.
  destruct (Ascii.eqb c " ") eqn:E1; [|destruct (Ascii.eqb c ":") eqn:E2;
    [|destruct (Ascii.eqb c dquote) eqn:E3]]; simpl.
  - intros [<-|[]]. repeat split; try discriminate. now left.
  - intros [].
  - intros [].
  - intros [<-|[]].
    apply Ascii.eqb_neq in E1, E2, E3. repeat split; auto.
Qed.

Lemma filename_char_other (c : ascii) :
  c <> " "%char -> c <> ":"%char -> c <> dquote ->
  filename_char c = String c "".
Proof.
  intros H1 H2 H3. unfold filename_char.
  apply Ascii.eqb_neq in H1, H2, H3. now rewrite H1, H2, H3.
Qed.

(** C9, as amended.  The name of the spreadsheet is
    [quake_results_<name>.xlsx], where [<name>] is a function of the
    query: the query with every space replaced by an underscore and every
    colon and double quote removed.  No space, colon or double quote is
    left in it; no other character of the query is replaced or removed,
    so a query without these three characters is its own name.  The
    export hands this name, joined to the working directory, to the
    spreadsheet writer: the file is written there when the writer accepts
    the path, and when the writer raises, the error leaves the export and
    there is no file. *)
Theorem export_file_name_of_query (query_term : string) :
  export_file_name query_term =
  ("quake_results_" ++ concat_chars filename_char query_term ++ ".xlsx")%string /\
  (forall c, In c (list_ascii_of_string (query_filename query_term)) ->
             c <> " "%char /\ c <> ":"%char /\ c <> dquote /\
             (c = "_"%char \/ In c (list_ascii_of_string query_term))) /\
  (forall c, In c (list_ascii_of_string query_term) ->
             c <> " "%char -> c <> ":"%char -> c <> dquote ->
             In c (list_ascii_of_string (query_filename query_term))) /\
  ((forall c, In c (list_ascii_of_string query_term) ->
              c <> " "%char /\ c <> ":"%char /\ c <> dquote) ->
   query_filename query_term = query_term) /\
  (forall w resp rows evs,
      runs_to (export_loop w 0 (data resp)) (inr rows) evs ->
      (sheet_writable w query_term ->
       runs_to (export_to_excel w resp query_term) (inr tt)
               (evs ++
                [EvToExcel (os_path_join (getcwd w) (export_file_name query_term)) rows;
                 EvPrint (MsgExported (export_file_name query_term))])) /\
      (~ sheet_writable w query_term ->
       runs_to (export_to_excel w resp query_term) (inl OSError) evs)).
Proof.
  split; [|split; [|split; [|split]]].
  - unfold export_file_name. now rewrite query_filename_one_pass.
  - rewrite query_filename_one_pass.
    induction query_term as [|x t IH]; simpl; [intros c []|].
    intros c Hc. apply in_chars_append in Hc as [Hc|Hc].
    + apply filename_char_kept in Hc as (H1 & H2 & H3 & [H4|H4]); auto 6.
    + destruct (IH c Hc) as (H1 & H2 & H3 & [H4|H4]); auto 6.
  - rewrite query_filename_one_pass.
    induction query_term as [|x t IH]; simpl; [intros c []|].
    intros c [<-|Hc] H1 H2 H3; apply in_chars_append.
    + left. rewrite filename_char_other by assumption. now left.
    + right. now apply IH.
  - rewrite query_filename_one_pass.
    induction query_term as [|x t IH]; simpl; [reflexivity|].
    intros H. destruct (H x (or_introl eq_refl)) as (H1 & H2 & H3).
    rewrite filename_char_other by assumption. simpl. f_equal.
    apply IH. intros c Hc. apply H. now right.
  - intros w resp rows evs Hrun. split; intros Hw.
    + now apply export_to_excel_of_loop.
    + now apply export_to_excel_of_loop_oserror with rows.
Qed.

(** The query [domain:a b.com] and the export of the page [A; C]. *)
Lemma export_file_name_of_query_witness :
  query_filename "domain:a b.com" = "domaina_b.com" /\
  In "."%char (list_ascii_of_string (query_filename "domain:a b.com")) /\
  query_filename "a-b.com" = "a-b.com" /\
  exists evs rows,
    runs_to (export_to_excel demo_world (demo_page [item_A; item_C]) "domain:a b.com")
            (inr tt)
            (evs ++ [EvToExcel "/home/user/quake_results_domaina_b.com.xlsx" rows;
                     EvPrint (MsgExported "quake_results_domaina_b.com.xlsx")]).
Proof.
  split; [reflexivity|]. split; [|split].
  - apply (proj1 (proj2 (proj2 (export_file_name_of_query "domain:a b.com")))).
    + simpl. tauto.
    + discriminate.
    + discriminate.
    + discriminate.
  - apply (proj1 (proj2 (proj2 (proj2 (export_file_name_of_query "a-b.com"))))).
    intros c Hc. simpl in Hc.
    repeat (destruct Hc as [<-|Hc]; [repeat split; discriminate|]). destruct Hc.
  - destruct (framed_export_loop demo_world [item_A; item_C] 0) as (r & evs & H).
    pose proof (H []) as E. vm_compute in E. injection E as <- <-.
    eexists _, _.
    exact (proj1 (proj2 (proj2 (proj2 (proj2
                    (export_file_name_of_query "domain:a b.com"))))
                    demo_world (demo_page [item_A; item_C]) _ _ H) eq_refl).
Defined.

(** C9 as stated fails: the program's own example query, [domain:xx.com],
    keeps its dot, which is no letter or digit, and the file is
    [quake_results_domainxx.com.xlsx]. *)
Lemma export_file_name_counterexample :
  export_file_name "domain:xx.com" = "quake_results_domainxx.com.xlsx" /\
  query_filename "domain:xx.com" = "domainxx.com" /\
  In "."%char (list_ascii_of_string "domain:xx.com") /\
  is_alnum "." = false /\
  In "."%char (list_ascii_of_string (query_filename "domain:xx.com")) /\
  ~ alnum_only (query_filename "domain:xx.com").
Proof.
  repeat split; try reflexivity.
  - simpl. tauto.
  - simpl. tauto.
  - intros H. destruct (H "."%char) as [E|E]; [simpl; tauto | |]; discriminate.
Qed.

(* ================================================================== *)
(** ** Further properties: the search request *)

(** X1.  [perform_search] sends one POST.  When the request raises, or
    the status is a 4xx or 5xx one, it prints the error and raises it
    again; when the body is not JSON the decoding error leaves it without
    a message; otherwise it returns the decoded page. *)
Theorem perform_search_outcomes
        (w : World) (api_key query result_count start_page : string) :
  let payload := {| p_query := query; p_start := start_page; p_size := result_count |} in
  let ev := search_event api_key query result_count start_page in
  (forall f,
      requests_post w quake_url api_key payload = inl f ->
      runs_to (perform_search w api_key query result_count start_page)
              (inl (RequestException f))
              [ev; EvPrint (MsgApiError (RequestException f))]) /\
  (forall r,
      requests_post w quake_url api_key payload = inr r ->
      400 <= sr_status_code r < 600 ->
      runs_to (perform_search w api_key query result_count start_page)
              (inl (HTTPError (sr_status_code r)))
              [ev; EvPrint (MsgApiError (HTTPError (sr_status_code r)))]) /\
  (forall r,
      requests_post w quake_url api_key payload = inr r ->
      ~ (400 <= sr_status_code r < 600) ->
      sr_json r = None ->
      runs_to (perform_search w api_key query result_count start_page)
              (inl JSONDecodeError) [ev]) /\
  (forall r page,
      requests_post w quake_url api_key payload = inr r ->
      ~ (400 <= sr_status_code r < 600) ->
      sr_json r = Some page ->
      runs_to (perform_search w api_key query result_count start_page)
              (inr page) [ev]).
Proof.
  intros payload ev. unfold ev, search_event. fold payload.
  split; [|split; [|split]].
  - intros f H tr. unfold perform_search. fold payload. run. rewrite H. run. closes.
  - intros r H Hst tr. unfold perform_search. fold payload. run. rewrite H.
    rewrite (error_status_true _ Hst). run. closes.
  - intros r H Hst Hj tr. unfold perform_search. fold payload. run. rewrite H.
    rewrite (error_status_false _ Hst), Hj. run. closes.
  - intros r page H Hst Hj tr. unfold perform_search. fold payload. run. rewrite H.
    rewrite (error_status_false _ Hst), Hj. run. closes.
Qed.

(** The search service of the small world answers the query
    [domain:example] and refuses the connection for [domain:other]. *)
Lemma perform_search_outcomes_witness :
  runs_to (perform_search demo_world "key" "domain:example" "100" "1")
          (inr (demo_page [item_A; item_B; item_C]))
          [search_event "key" "domain:example" "100" "1"] /\
  runs_to (perform_search demo_world "key" "domain:other" "100" "1")
          (inl (RequestException ConnectionError))
          [search_event "key" "domain:other" "100" "1";
           EvPrint (MsgApiError (RequestException ConnectionError))].
Proof.
  split.
  - apply (proj2 (proj2 (proj2 (perform_search_outcomes demo_world "key"
                                  "domain:example" "100" "1")))
             {| sr_status_code := 200;
                sr_json := Some (demo_page [item_A; item_B; item_C]) |}).
    + reflexivity.
    + simpl. lia.
    + reflexivity.
  - apply (proj1 (perform_search_outcomes demo_world "key"
                    "domain:other" "100" "1")).
    reflexivity.
Defined.

(* ================================================================== *)
(** ** Further properties: the classifier *)

(** X2.  [check_cdn_usage] and [check_domain_for_cdn] are the same
    computation.  Each makes one DNS lookup; when the lookup raises, so
    does the function, with the same error; otherwise it returns whether
    the answer has two addresses or more. *)
Theorem check_cdn_usage_check_domain_for_cdn (w : World) (hostname : string) :
  (forall tr, check_cdn_usage w hostname tr = check_domain_for_cdn w hostname tr) /\
  runs_to (check_cdn_usage w hostname)
          match resolver_resolve w hostname with
          | inl f => inl (DNSException f)
          | inr answers => inr (Nat.leb 2 (List.length answers))
          end
          [EvResolve hostname].
Proof.
  split.
  - intros tr. unfold check_cdn_usage, check_domain_for_cdn. run.
    destruct (resolver_resolve w hostname) as [f|answers]; [reflexivity|].
    do 2 f_equal.
    destruct (Z.leb_spec 2 (Z.of_nat (List.length answers)));
      destruct (Z.ltb_spec 1 (Z.of_nat (List.length answers)));
      try reflexivity; lia.
  - intros tr. unfold check_cdn_usage. run.
    destruct (resolver_resolve w hostname) as [f|answers]; [reflexivity|].
    do 2 f_equal.
    destruct (Z.leb_spec 2 (Z.of_nat (List.length answers)));
      destruct (Nat.leb_spec 2 (List.length answers)); try reflexivity; lia.
Qed.

Lemma first_cdn_match_in (names : list string) (header name : string) :
  first_cdn_match names header = Some name -> In name names.
Proof.
  induction names as [|n names IH]; simpl; [discriminate|].
  destruct (str_in (lower n) header); [intros [= ->]; now left | right; auto].
Qed.

Lemma header_verdict_cell (resp : response) :
  header_verdict resp = PyNone \/
  exists name, header_verdict resp = PyStr name /\ In name COMMON_CDN_NAMES.
Proof.
  unfold header_verdict.
  destruct (first_cdn_match _ _) as [name|] eqn:E; [right | now left].
  exists name. split; [reflexivity | now apply first_cdn_match_in in E].
Qed.



Lemma catalog_entry_first (name : string) :
  In name COMMON_CDN_NAMES -> first_cdn_match COMMON_CDN_NAMES name = Some name.
Proof.
  intros H. simpl in H.
  repeat (destruct H as [<-|H]; [reflexivity|]). destruct H.
Qed.

(** X4.  No name of the catalog is hidden by an earlier one: when the
    probe passed and the Server header is a name of the catalog, in any
    letter case, [identify_cdn_provider] returns that name. *)
Theorem identify_cdn_provider_every_entry
        (w : World) (hostname : string) (resp : response) (name : string) :
  probe_succeeded w hostname resp ->
  In name COMMON_CDN_NAMES ->
  lower (headers_get (headers resp) "Server" "") = name ->
  runs_to (identify_cdn_provider w hostname) (inr (PyStr name))
          [EvGet (probe_url hostname) (Some 5)].
Proof.
  intros Hprobe Hin Hlower.
  pose proof (identify_cdn_provider_passed _ _ _ Hprobe) as H.
  unfold header_verdict in H. rewrite Hlower in H.
  now rewrite (catalog_entry_first _ Hin) in H.
Qed.

(** c.example answers with the header [Server: cloudflare]. *)
Lemma identify_cdn_provider_every_entry_witness :
  runs_to (identify_cdn_provider demo_world "c.example") (inr (PyStr "cloudflare"))
          [EvGet (probe_url "c.example") (Some 5)].
Proof.
  apply (identify_cdn_provider_every_entry demo_world "c.example"
           {| status_code := 200; headers := [("Server", "cloudflare")];
              json := None |}).
  - split; [reflexivity | simpl; lia].
  - simpl. auto.
  - reflexivity.
Defined.

(* ================================================================== *)
(** ** Further properties: the two geolocation helpers *)

(** X5.  The outcomes of [_get_ip_location_with_ip_api].  An exception
    inside the [try] is printed with the IP and turned into [None]: a
    request that raises, whatever it raises, a 4xx or 5xx status, a body
    that is not JSON, a body without the [status] key, a success body
    without the [city] key.  A body whose status is not success gives [None] with no line
    printed.  A success body gives its city, whatever it is. *)
Theorem get_ip_location_with_ip_api_outcomes (w : World) (ip_address : string) :
  let call := EvGet (ip_api_url ip_address) None in
  let said e := EvPrint (MsgIpApiError ip_address e) in
  (forall f,
      requests_get w (ip_api_url ip_address) None = inl f ->
      runs_to (_get_ip_location_with_ip_api w ip_address) (inr PyNone)
              [call; said (get_exn f)]) /\
  (forall resp,
      requests_get w (ip_api_url ip_address) None = inr resp ->
      400 <= status_code resp < 600 ->
      runs_to (_get_ip_location_with_ip_api w ip_address) (inr PyNone)
              [call; said (HTTPError (status_code resp))]) /\
  (forall resp,
      requests_get w (ip_api_url ip_address) None = inr resp ->
      ~ (400 <= status_code resp < 600) ->
      (json resp = None ->
       runs_to (_get_ip_location_with_ip_api w ip_address) (inr PyNone)
               [call; said JSONDecodeError]) /\
      (forall d,
          json resp = Some d ->
          (dict_lookup d "status" = None ->
           runs_to (_get_ip_location_with_ip_api w ip_address) (inr PyNone)
                   [call; said (KeyError "status")]) /\
          (forall st,
              dict_lookup d "status" = Some st -> st <> PyStr "success" ->
              runs_to (_get_ip_location_with_ip_api w ip_address) (inr PyNone)
                      [call]) /\
          (dict_lookup d "status" = Some (PyStr "success") ->
           dict_lookup d "city" = None ->
           runs_to (_get_ip_location_with_ip_api w ip_address) (inr PyNone)
                   [call; said (KeyError "city")]) /\
          (forall city,
              dict_lookup d "status" = Some (PyStr "success") ->
              dict_lookup d "city" = Some city ->
              runs_to (_get_ip_location_with_ip_api w ip_address) (inr city)
                      [call]))).
Proof.
  intros call said. unfold call, said.
  split; [|split].
  - intros f H tr. unfold _get_ip_location_with_ip_api. run. rewrite H. run. closes.
  - intros resp H Hst tr. unfold _get_ip_location_with_ip_api. run. rewrite H.
    rewrite (error_status_true _ Hst). run. closes.
  - intros resp H Hst. split; [|intros d Hj; split; [|split; [|split]]].
    + intros Hj tr. unfold _get_ip_location_with_ip_api. run. rewrite H.
      rewrite (error_status_false _ Hst), Hj. run. closes.
    + intros Hs tr. unfold _get_ip_location_with_ip_api. run. rewrite H.
      rewrite (error_status_false _ Hst), Hj, Hs. run. closes.
    + intros st Hs Hne tr. unfold _get_ip_location_with_ip_api. run. rewrite H.
      rewrite (error_status_false _ Hst), Hj, Hs.
      destruct (pyval_eqb st (PyStr "success")) eqn:E;
        [apply pyval_eqb_eq in E; contradiction|].
      run. closes.
    + intros Hs Hc tr. unfold _get_ip_location_with_ip_api. run. rewrite H.
      rewrite (error_status_false _ Hst), Hj, Hs. run.
      change (pyval_eqb (PyStr "success") (PyStr "success")) with true.
      rewrite Hc. run. closes.
    + intros city Hs Hc tr. unfold _get_ip_location_with_ip_api. run. rewrite H.
      rewrite (error_status_false _ Hst), Hj, Hs. run.
      change (pyval_eqb (PyStr "success") (PyStr "success")) with true.
      rewrite Hc. run. closes.
Qed.

(** In the small world ip-api refuses the connection for 2.2.2.2,
    answers with the status [fail] for 3.3.3.3 and with the city Sydney
    for 1.1.1.1. *)
Lemma get_ip_location_with_ip_api_outcomes_witness :
  runs_to (_get_ip_location_with_ip_api demo_world "2.2.2.2") (inr PyNone)
          [EvGet (ip_api_url "2.2.2.2") None;
           EvPrint (MsgIpApiError "2.2.2.2" (RequestException ConnectionError))] /\
  runs_to (_get_ip_location_with_ip_api demo_world "3.3.3.3") (inr PyNone)
          [EvGet (ip_api_url "3.3.3.3") None] /\
  runs_to (_get_ip_location_with_ip_api demo_world "1.1.1.1") (inr (PyStr "Sydney"))
          [EvGet (ip_api_url "1.1.1.1") None].
Proof.
  split; [|split].
  - apply (proj1 (get_ip_location_with_ip_api_outcomes demo_world "2.2.2.2")
             (RequestFailure ConnectionError)).
    reflexivity.
  - destruct (get_ip_location_with_ip_api_outcomes demo_world "3.3.3.3")
      as (_ & _ & H).
    destruct (H _ eq_refl) as (_ & Hd); [simpl; lia|].
    destruct (Hd _ eq_refl) as (_ & Hsilent & _).
    apply (Hsilent (PyStr "fail")); [reflexivity | discriminate].
  - destruct (get_ip_location_with_ip_api_outcomes demo_world "1.1.1.1")
      as (_ & _ & H).
    destruct (H _ eq_refl) as (_ & Hd); [simpl; lia|].
    destruct (Hd _ eq_refl) as (_ & _ & _ & Hcity).
    apply Hcity; reflexivity.
Defined.

(** X6.  The outcomes of [_get_ip_location_with_geopy]: the address when
    the geocoder found one; when the geocoder raised, or found nothing
    (the attribute access on [None] raises), the error is printed with the
    IP and the result is [None].  It never raises. *)
Theorem get_ip_location_with_geopy_outcomes (w : World) (ip_address : string) :
  (forall address,
      geolocator_reverse w ip_address = inr (Some address) ->
      runs_to (_get_ip_location_with_geopy w ip_address) (inr (PyStr address))
              [EvReverse ip_address]) /\
  (geolocator_reverse w ip_address = inr None ->
   runs_to (_get_ip_location_with_geopy w ip_address) (inr PyNone)
           [EvReverse ip_address;
            EvPrint (MsgGeopyError ip_address AttributeError)]) /\
  (forall e,
      geolocator_reverse w ip_address = inl e ->
      runs_to (_get_ip_location_with_geopy w ip_address) (inr PyNone)
              [EvReverse ip_address; EvPrint (MsgGeopyError ip_address e)]).
Proof.
  split; [|split].
  - intros address H tr. unfold _get_ip_location_with_geopy. run. rewrite H. closes.
  - intros H tr. unfold _get_ip_location_with_geopy. run. rewrite H. closes.
  - intros e H tr. unfold _get_ip_location_with_geopy. run. rewrite H. closes.
Qed.

(** The geocoder of the small world knows 2.2.2.2, and raises for
    1.1.1.1; that of the second world finds nothing for 9.9.9.9. *)
Lemma get_ip_location_with_geopy_outcomes_witness :
  runs_to (_get_ip_location_with_geopy demo_world "2.2.2.2")
          (inr (PyStr "Paris, France")) [EvReverse "2.2.2.2"] /\
  runs_to (_get_ip_location_with_geopy demo_world' "9.9.9.9") (inr PyNone)
          [EvReverse "9.9.9.9"; EvPrint (MsgGeopyError "9.9.9.9" AttributeError)] /\
  runs_to (_get_ip_location_with_geopy demo_world "1.1.1.1") (inr PyNone)
          [EvReverse "1.1.1.1"; EvPrint (MsgGeopyError "1.1.1.1" GeocoderError)].
Proof.
  split; [|split].
  - apply (proj1 (get_ip_location_with_geopy_outcomes demo_world "2.2.2.2")).
    reflexivity.
  - apply (proj1 (proj2 (get_ip_location_with_geopy_outcomes demo_world' "9.9.9.9"))).
    reflexivity.
  - apply (proj2 (proj2 (get_ip_location_with_geopy_outcomes demo_world "1.1.1.1"))).
    reflexivity.
Defined.

(* ================================================================== *)
(** ** What a computation emits *)

Section EmitsOnly.

Variable P : event -> bool.

Lemma emits_only_ret {A} (a : A) : emits_only P (ret a).
Proof. exists (inr a), []. split; [apply runs_to_ret | constructor]. Qed.

Lemma emits_only_raise {A} (e : exn) : emits_only P (@raise A e).
Proof. exists (inl e), []. split; [apply runs_to_raise | constructor]. Qed.

Lemma emits_only_lift {A} (r : exn + A) : emits_only P (lift r).
Proof. destruct r; [apply emits_only_raise | apply emits_only_ret]. Qed.

Lemma emits_only_emit (ev : event) : P ev = true -> emits_only P (emit ev).
Proof.
  intros H. exists (inr tt), [ev]. split; [apply runs_to_emit | now constructor].
Qed.

Lemma emits_only_print (m : message) :
  P (EvPrint m) = true -> emits_only P (print m).
Proof. apply emits_only_emit. Qed.

Lemma emits_only_bind {A B} (m : M A) (k : A -> M B) :
  emits_only P m -> (forall a, emits_only P (k a)) -> emits_only P (bind m k).
Proof.
  intros (r & e1 & Hm & H1) Hk. destruct r as [e|a].
  - exists (inl e), e1. split; [now apply runs_to_bind_raise | exact H1].
  - destruct (Hk a) as (r & e2 & Ha & H2). exists r, (e1 ++ e2).
    split; [now apply runs_to_bind with a | now apply Forall_app].
Qed.

Lemma emits_only_try {A} (body : M A) c h :
  emits_only P body -> (forall e, emits_only P (h e)) ->
  emits_only P (try_except body c h).
Proof.
  intros (r & e1 & Hb & H1) Hh. destruct r as [e|a].
  - destruct (c e) eqn:Hc.
    + destruct (Hh e) as (r & e2 & He & H2). exists r, (e1 ++ e2).
      split; [now apply runs_to_try_caught with e | now apply Forall_app].
    + exists (inl e), e1. split; [now apply runs_to_try_uncaught | exact H1].
  - exists (inr a), e1. split; [now apply runs_to_try_ok | exact H1].
Qed.

Lemma emits_only_raise_for_status (status : Z) :
  emits_only P (raise_for_status status).
Proof.
  unfold raise_for_status.
  destruct ((400 <=? status) && (status <? 600));
    [apply emits_only_raise | apply emits_only_ret].
Qed.

Lemma emits_only_resolve w hostname :
  P (EvResolve hostname) = true -> emits_only P (resolve w hostname).
Proof.
  intros H. eexists _, [EvResolve hostname].
  split; [intros tr; reflexivity | now constructor].
Qed.

Lemma emits_only_get w url timeout :
  P (EvGet url timeout) = true -> emits_only P (get w url timeout).
Proof.
  intros H. eexists _, [EvGet url timeout].
  split; [intros tr; reflexivity | now constructor].
Qed.

Lemma emits_only_reverse w ip_address :
  P (EvReverse ip_address) = true -> emits_only P (reverse w ip_address).
Proof.
  intros H. eexists _, [EvReverse ip_address].
  split; [intros tr; reflexivity | now constructor].
Qed.

(** Whatever a run of such a computation did is of kind [P]. *)
Lemma emits_only_runs {A} (m : M A) r evs :
  emits_only P m -> runs_to m r evs -> Forall (fun ev => P ev = true) evs.
Proof.
  intros (r' & evs' & H' & HP) H.
  destruct (runs_to_fun _ _ _ _ _ H H') as [_ ->]. exact HP.
Qed.

End EmitsOnly.

Lemma emits_only_weaken (P Q : event -> bool) {A} (m : M A) :
  (forall ev, P ev = true -> Q ev = true) -> emits_only P m -> emits_only Q m.
Proof.
  intros HPQ (r & evs & H & HP). exists r, evs. split; [exact H|].
  eapply Forall_impl; [|exact HP]. exact HPQ.
Qed.

Lemma enrichment_record_event ev : enrichment_event ev = true -> record_event ev = true.
Proof. destruct ev; simpl; auto. Qed.

Lemma record_display_event ev : record_event ev = true -> display_event ev = true.
Proof. destruct ev as [| | | |m| | | | |]; simpl; auto. destruct m; simpl; auto. Qed.

Lemma display_event_no_write ev : display_event ev = true -> record_write ev = false.
Proof. destruct ev as [| | | |m| | | | |]; simpl; auto; discriminate. Qed.

Lemma enrichment_event_no_write ev :
  enrichment_event ev = true -> record_write ev = false.
Proof.
  intros H. now apply display_event_no_write, record_display_event,
              enrichment_record_event.
Qed.

Create HintDb emits.

#[local] Hint Resolve emits_only_ret emits_only_raise emits_only_lift
  emits_only_emit emits_only_print emits_only_bind emits_only_try
  emits_only_raise_for_status emits_only_resolve emits_only_get
  emits_only_reverse : emits.

#[local] Hint Extern 1 (_ = true) => reflexivity : emits.

#[local] Hint Extern 2 (emits_only _ (match ?x with _ => _ end)) => destruct x : emits.

Section Emits.

Variable w : World.

Lemma emits_identify_cdn_provider hostname :
  emits_only enrichment_event (identify_cdn_provider w hostname).
Proof. unfold identify_cdn_provider. auto 8 with emits. Qed.

Lemma emits_get_ip_location ip_address :
  emits_only enrichment_event (get_ip_location w ip_address).
Proof.
  unfold get_ip_location, _get_ip_location_with_ip_api, _get_ip_location_with_geopy.
  auto 12 with emits.
Qed.

Lemma emits_display_cdn_provider hostname :
  emits_only record_event (display_cdn_provider w hostname).
Proof.
  unfold display_cdn_provider, check_cdn_usage.
  pose proof (fun h => emits_only_weaken _ _ _ enrichment_record_event
                         (emits_identify_cdn_provider h)).
  auto 8 with emits.
Qed.

Lemma emits_export_item index it :
  emits_only enrichment_event (export_item w index it).
Proof.
  unfold export_item.
  pose proof emits_identify_cdn_provider. pose proof emits_get_ip_location.
  auto 8 with emits.
Qed.

Lemma emits_export_loop items :
  forall index, emits_only enrichment_event (export_loop w index items).
Proof.
  induction items as [|it rest IH]; intros index; simpl.
  - apply emits_only_ret.
  - apply emits_only_bind; [apply emits_export_item | intros r].
    apply emits_only_bind; [apply IH | intros rows; apply emits_only_ret].
Qed.

End Emits.

(* ================================================================== *)
(** ** Further properties: the table *)

Lemma skip_warnings_app (a b : list event) :
  skip_warnings (a ++ b) = skip_warnings a ++ skip_warnings b.
Proof.
  induction a as [|ev a IH]; simpl; [reflexivity|].
  destruct ev as [| | | |m| | | | |]; try exact IH.
  destruct m; simpl; try exact IH. now rewrite IH.
Qed.

Lemma skip_warnings_record_events (evs : list event) :
  Forall (fun ev => record_event ev = true) evs -> skip_warnings evs = [].
Proof.
  induction 1 as [|ev evs Hev _ IH]; simpl; [reflexivity|].
  destruct ev as [| | | |m| | | | |]; try exact IH.
  destruct m; simpl in *; try exact IH. discriminate.
Qed.

Lemma py_or_truthy (a b : pyval) : py_truthy b = true -> py_truthy (py_or a b) = true.
Proof. intros H. unfold py_or. now destruct (py_truthy a) eqn:E. Qed.

Section Account.

Variable w : World.

(** The first DNS failure of a page, if there is one. *)
Lemma dns_ok_or_first_failure (items : list item) :
  dns_ok w items \/
  exists before it h after f,
    items = before ++ it :: after /\ dns_ok w before /\
    http (service it) = Some h /\ resolver_resolve w (host h) = inl f.
Proof.
  induction items as [|it rest IH].
  - left. intros it h [].
  - assert (Hhead : dns_ok w [it] \/
                    exists h f, http (service it) = Some h /\
                                resolver_resolve w (host h) = inl f).
    { destruct (http (service it)) as [h|] eqn:Hh.
      - destruct (resolver_resolve w (host h)) as [f|answers] eqn:Hr.
        + right. now exists h, f.
        + left. intros it' h' [<-|[]] Hh'. rewrite Hh in Hh'.
          injection Hh' as <-. now exists answers.
      - left. intros it' h' [<-|[]] Hh'. congruence. }
    destruct Hhead as [Hhead|(h & f & Hh & Hf)].
    2:{ right. exists [], it, h, rest, f. repeat split; auto. intros ? ? []. }
    destruct IH as [IH|(before & bad & h & after & f & -> & Hb & Hh & Hf)].
    + left. intros it' h' [<-|Hin] Hh'; [apply (Hhead it h'); simpl; auto|].
      now apply (IH it' h').
    + right. exists (it :: before), bad, h, after, f. repeat split; auto.
      intros it' h' [<-|Hin] Hh'; [apply (Hhead it h'); simpl; auto|].
      now apply (Hb it' h').
Qed.

Lemma get_ip_location_account ip_address :
  exists v evs,
    runs_to (get_ip_location w ip_address) (inr v) evs /\
    Forall (fun ev => enrichment_event ev = true) evs /\
    (1 <= List.length (lookups evs) <= 2)%nat.
Proof.
  assert (H : exists v evs,
             runs_to (get_ip_location w ip_address) (inr v) evs /\
             (1 <= List.length (lookups evs) <= 2)%nat).
  { destruct (primary_outcome w ip_address) as [[city H1]|H1].
    { exists (PyStr city). eexists.
      split; [apply get_ip_location_primary, H1 | simpl; lia]. }
    destruct (secondary_outcome w ip_address) as [[address H2]|H2].
    - destruct (get_ip_location_secondary _ _ _ H1 H2) as (evs & H & Hl).
      eexists _, evs. split; [exact H | rewrite Hl; simpl; lia].
    - destruct (get_ip_location_absent _ _ H1 H2) as (evs & H & Hl).
      eexists _, evs. split; [exact H | rewrite Hl; simpl; lia]. }
  destruct H as (v & evs & H & Hl). exists v, evs. split; [exact H|].
  split; [|exact Hl].
  exact (emits_only_runs _ _ _ _ (emits_get_ip_location w ip_address) H).
Qed.

Lemma identify_cdn_provider_cell hostname :
  ~ probe_refused w hostname ->
  exists v,
    runs_to (identify_cdn_provider w hostname) (inr v)
            [EvGet (probe_url hostname) (Some 5)] /\
    (v = PyNone \/ exists name, v = PyStr name /\ In name COMMON_CDN_NAMES).
Proof.
  intros Hparse. destruct (probe_outcome w hostname) as [H|[resp H]].
  - exists PyNone. split; [now apply identify_cdn_provider_failed | now left].
  - exists (header_verdict resp).
    split; [now apply identify_cdn_provider_passed | apply header_verdict_cell].
Qed.

Lemma display_cdn_provider_account hostname answers :
  resolver_resolve w hostname = inr answers ->
  exists cdn evs,
    runs_to (display_cdn_provider w hostname) (inr cdn) evs /\
    cdn_cell cdn /\
    Forall (fun ev => record_event ev = true) evs /\
    (1 <= List.length (lookups evs) <= 2)%nat.
Proof.
  intros Hdns.
  destruct (Z_lt_dec (Z.of_nat (List.length answers)) 2) as [Hlen|Hlen].
  - exists (PyStr UNKNOWN_LABEL), [EvResolve hostname].
    split; [now apply display_cdn_provider_few with answers|].
    split; [now left|]. split; [repeat constructor | simpl; lia].
  - destruct (identify_cdn_provider_cell hostname
                (resolved_not_refused _ _ _ Hdns)) as (v & Hv & Hcell).
    exists v, [EvResolve hostname; EvGet (probe_url hostname) (Some 5)].
    split; [apply display_cdn_provider_many with answers; auto; lia|].
    split; [right; exact Hcell|]. split; [repeat constructor | simpl; lia].
Qed.

(** The loop of the table, with what it does on the way. *)
Lemma display_loop_account (items : list item) :
  dns_ok w items ->
  forall index table,
  exists evs rows,
    runs_to (display_loop w index items table) (inr (table ++ rows)) evs /\
    Forall2 (displayed w) (valid_positions index items) rows /\
    Forall (fun r => cdn_cell (r_cdn r)) rows /\
    skip_warnings evs = invalid_positions index items /\
    Forall (fun ev => display_event ev = true) evs /\
    (2 * List.length rows <= List.length (lookups evs) <= 4 * List.length rows)%nat.
Proof.
  induction items as [|it rest IH]; intros Hdns index table.
  - exists [], []. rewrite app_nil_r.
    repeat split; try constructor; try apply runs_to_ret; simpl; lia.
  - specialize (IH (dns_ok_cons _ _ _ Hdns)).
    destruct (http (service it)) as [h|] eqn:Hh.
    + destruct (Hdns it h (or_introl eq_refl) Hh) as [answers Hans].
      destruct (display_cdn_provider_account _ _ Hans)
        as (cdn & evs1 & Hcdn & Hcell & He1 & Hl1).
      destruct (get_ip_location_account (ip it)) as (location & evs2 & Hloc & He2 & Hl2).
      pose proof (display_item_valid w index it h table _ _ _ _ Hh Hcdn Hloc) as Hitem.
      match type of Hitem with
      | runs_to _ (inr (_ ++ [?x])) _ => set (r := x) in *
      end.
      destruct (IH (index + 1) (table ++ [r]))
        as (evs & rows & Hrun & Hrows & Hcells & Hw & Hev & Hl).
      exists ((evs1 ++ evs2) ++ evs), (r :: rows).
      assert (He12 : Forall (fun ev => record_event ev = true) (evs1 ++ evs2)).
      { apply Forall_app. split; [exact He1|].
        eapply Forall_impl; [|exact He2]. apply enrichment_record_event. }
      split; [|split; [|split; [|split; [|split]]]].
      * simpl display_loop. eapply runs_to_bind; [exact Hitem|].
        now rewrite <- app_assoc in Hrun.
      * simpl. unfold has_http. rewrite Hh. simpl. constructor; [|exact Hrows].
        repeat split; simpl; eauto.
        unfold item_host. now rewrite Hh.
      * constructor; [exact Hcell | exact Hcells].
      * rewrite skip_warnings_app, (skip_warnings_record_events _ He12), Hw.
        simpl. unfold has_http. now rewrite Hh.
      * apply Forall_app. split; [|exact Hev].
        eapply Forall_impl; [|exact He12]. apply record_display_event.
      * rewrite !lookups_app, !length_app. simpl List.length. lia.
    + destruct (IH (index + 1) table)
        as (evs & rows & Hrun & Hrows & Hcells & Hw & Hev & Hl).
      exists ([EvPrint (MsgSkipWarning index)] ++ evs), rows.
      split; [|split; [|split; [|split; [|split]]]].
      * simpl display_loop. eapply runs_to_bind; [|exact Hrun].
        now apply display_item_skip.
      * simpl. unfold has_http. rewrite Hh. exact Hrows.
      * exact Hcells.
      * simpl. unfold has_http. rewrite Hh, Hw. reflexivity.
      * constructor; [reflexivity | exact Hev].
      * exact Hl.
Qed.

End Account.

Section TableProperties.

Variable w : World.

Lemma invalid_positions_length (items : list item) :
  forall index,
    (List.length (valid_positions index items) +
     List.length (invalid_positions index items) = List.length items)%nat.
Proof.
  induction items as [|it rest IH]; intros index; simpl; [reflexivity|].
  rewrite !length_app, <- (IH (index + 1)).
  destruct (has_http it); simpl; lia.
Qed.

(** Every run of [display_results] that returns is the run of a page
    whose DNS lookups do not raise, and is accounted for as follows. *)
Lemma display_results_account resp start_page result_count query_term evs table :
  runs_to (display_results w resp start_page result_count query_term) (inr tt)
          (evs ++ [EvPrint (MsgTable table)]) ->
  dns_ok w (data resp) /\
  Forall2 (displayed w) (valid_positions 1 (data resp)) table /\
  Forall (fun r => cdn_cell (r_cdn r)) table /\
  skip_warnings evs = invalid_positions 1 (data resp) /\
  Forall (fun ev => record_write ev = false) evs /\
  (2 * List.length table <= List.length (lookups evs) <= 4 * List.length table)%nat.
Proof.
  intros Hrun.
  destruct (dns_ok_or_first_failure w (data resp))
    as [Hdns|(before & it & h & after & f & Hdata & Hb & Hh & Hf)].
  2:{ exfalso.
      destruct (display_loop_dns_error w before it h after f Hb Hh Hf 1 [])
        as (evs' & Hloop).
      rewrite <- Hdata in Hloop.
      pose proof (display_results_of_loop_raise w resp start_page result_count
                    query_term _ _ Hloop) as Hraise.
      destruct (runs_to_fun _ _ _ _ _ Hrun Hraise) as [E _]. discriminate. }
  split; [exact Hdns|].
  destruct (display_loop_account w _ Hdns 1 [])
    as (evs' & rows & Hloop & Hrows & Hcells & Hw & Hev & Hl).
  change ([] ++ rows) with rows in Hloop.
  pose proof (display_results_of_loop w resp start_page result_count
                query_term _ _ Hloop) as Hret.
  destruct (runs_to_fun _ _ _ _ _ Hrun Hret) as [_ E].
  apply app_inj_tail in E as [-> E]. injection E as ->.
  split; [exact Hrows|]. split; [exact Hcells|].
  split; [exact Hw|]. split; [|exact Hl].
  repeat (constructor; [reflexivity|]).
  eapply Forall_impl; [|exact Hev]. apply display_event_no_write.
Qed.


(** X8.  In every table that [display_results] prints, the location cell
    of a row is a non-empty string, never [None], and the CDN cell is the
    label 未知, [None], or a name of [COMMON_CDN_NAMES]. *)
Theorem display_results_table_cells
        (resp : api_response) (start_page result_count query_term : string)
        (evs : list event) (table : list row) :
  runs_to (display_results w resp start_page result_count query_term) (inr tt)
          (evs ++ [EvPrint (MsgTable table)]) ->
  Forall (fun r => (exists s, r_location r = PyStr s /\ s <> "") /\
                   cdn_cell (r_cdn r)) table.
Proof.
  intros Hrun.
  destruct (display_results_account _ _ _ _ _ _ Hrun) as (_ & Hrows & Hcells & _).
  clear Hrun. revert Hcells.
  induction Hrows as [|p r ps rows Hd _ IH]; intros Hcells; [constructor|].
  inversion Hcells; subst. constructor; [|now apply IH]. split; [|assumption].
  destruct Hd as (_ & _ & (location & evs' & _ & ->) & _).
  unfold py_or. destruct location as [|s]; simpl.
  - eexists. split; [reflexivity | discriminate].
  - destruct (String.eqb s "") eqn:E; simpl.
    + eexists. split; [reflexivity | discriminate].
    + exists s. split; [reflexivity | now apply String.eqb_neq].
Qed.

(** X9.  When [display_results] returns, it has printed one warning for
    each record without the http block, naming the 1-based position of
    the record, in the order of the page, and no other warning; rows and
    warnings together are as many as the records of the page. *)
Theorem display_results_skip_warnings
        (resp : api_response) (start_page result_count query_term : string)
        (evs : list event) (table : list row) :
  runs_to (display_results w resp start_page result_count query_term) (inr tt)
          (evs ++ [EvPrint (MsgTable table)]) ->
  skip_warnings evs = invalid_positions 1 (data resp) /\
  (List.length table + List.length (skip_warnings evs) = List.length (data resp))%nat.
Proof.
  intros Hrun.
  destruct (display_results_account _ _ _ _ _ _ Hrun) as (_ & Hrows & _ & Hw & _).
  split; [exact Hw|].
  rewrite Hw, <- (Forall2_length Hrows). apply invalid_positions_length.
Qed.

(** X10.  When [display_results] returns, it has made at least two and at
    most four lookups for each row of the table (the DNS lookup, perhaps
    the probe, the first geolocation request, perhaps the second) and
    none for a skipped record; it has inserted no row in the database and
    written no spreadsheet. *)
Theorem display_results_lookups
        (resp : api_response) (start_page result_count query_term : string)
        (evs : list event) (table : list row) :
  runs_to (display_results w resp start_page result_count query_term) (inr tt)
          (evs ++ [EvPrint (MsgTable table)]) ->
  (2 * List.length table <= List.length (lookups evs) <= 4 * List.length table)%nat /\
  Forall (fun ev => record_write ev = false) evs.
Proof.
  intros Hrun.
  destruct (display_results_account _ _ _ _ _ _ Hrun) as (_ & _ & _ & _ & Hnw & Hl).
  split; [exact Hl | exact Hnw].
Qed.

End TableProperties.


Lemma display_results_ABC :
  runs_to (display_results demo_world (demo_page [item_A; item_B; item_C])
                           "1" "100" "q") (inr tt)
          (lookups_ABC "q" ++ [EvPrint (MsgTable table_ABC)]).
Proof. apply runs_to_from_nil; [apply framed_display_results | reflexivity]. Qed.

(** The table of the page [A; B; C]. *)
Lemma display_results_table_cells_witness :
  Forall (fun r => (exists s, r_location r = PyStr s /\ s <> "") /\
                   cdn_cell (r_cdn r)) table_ABC.
Proof.
  exact (display_results_table_cells demo_world _ _ _ _ _ _ display_results_ABC).
Defined.

(** The page [A; B; C]: one warning, for position 2. *)
Lemma display_results_skip_warnings_witness :
  skip_warnings (lookups_ABC "q") = [2] /\
  (List.length table_ABC + List.length (skip_warnings (lookups_ABC "q")) = 3)%nat.
Proof.
  exact (display_results_skip_warnings demo_world _ _ _ _ _ _ display_results_ABC).
Defined.

(** The page [A; B; C]: two rows, five lookups. *)
Lemma display_results_lookups_witness :
  (2 * 2 <= List.length (lookups (lookups_ABC "q")) <= 4 * 2)%nat /\
  Forall (fun ev => record_write ev = false) (lookups_ABC "q").
Proof.
  exact (display_results_lookups demo_world _ _ _ _ _ _ display_results_ABC).
Defined.

(* ================================================================== *)
(** ** Further properties: the spreadsheet and the store *)

Lemma all_valid_or_invalid (items : list item) :
  (forall it, In it items -> has_http it = true) \/
  (exists it, In it items /\ has_http it = false).
Proof.
  induction items as [|it rest [IH|(bad & Hin & Hbad)]].
  - left. intros it [].
  - destruct (has_http it) eqn:E.
    + left. intros it' [<-|Hin]; auto.
    + right. exists it. split; [now left | exact E].
  - right. exists bad. split; [now right | exact Hbad].
Qed.

Section SheetProperties.

Variable w : World.

Lemma exported_rows (items : list item) :
  forall n rows,
    Forall2_indexed (exported w) (Z.of_nat n) items rows ->
    map r_index rows = map Z.of_nat (seq (S n) (List.length items)) /\
    Forall2 row_of_item items rows.
Proof.
  induction items as [|it rest IH]; intros n rows H; inversion H; subst; simpl.
  - split; [reflexivity | constructor].
  - match goal with
    | Hr : exported _ _ _ _, Hrest : Forall2_indexed _ _ _ _ |- _ =>
        destruct Hr as (Hi & Hraw & _);
        replace (Z.of_nat n + 1) with (Z.of_nat (S n)) in Hrest by lia;
        destruct (IH _ _ Hrest) as [IH1 IH2]
    end.
    split; [|now constructor].
    f_equal; [lia | exact IH1].
Qed.

Lemma export_item_account index it h :
  http (service it) = Some h ->
  ~ probe_refused w (host h) ->
  exists r evs,
    runs_to (export_item w index it) (inr r) evs /\ exported w index it r /\
    (2 <= List.length (lookups evs) <= 3)%nat.
Proof.
  intros Hh Hparse.
  destruct (get_ip_location_account w (ip it)) as (location & evs1 & Hloc & _ & Hl).
  destruct (identify_cdn_provider_returns w (host h) Hparse) as (cdn & Hcdn).
  exists {| r_index := index + 1; r_hostname := host h; r_ip := ip it;
            r_port := port it; r_location := location; r_cdn := cdn |}.
  exists (evs1 ++ [EvGet (probe_url (host h)) (Some 5)]). split; [|split].
  - intros tr. unfold export_item, item_host. rewrite Hh. run.
    rewrite Hloc, Hcdn. closes.
  - unfold exported, row_of_item, item_host. rewrite Hh. simpl.
    repeat split; eauto.
  - rewrite lookups_app, length_app. simpl. lia.
Qed.

Lemma export_loop_account (items : list item) :
  (forall it, In it items -> has_http it = true) ->
  probes_parse w items ->
  forall index,
  exists evs rows,
    runs_to (export_loop w index items) (inr rows) evs /\
    Forall2_indexed (exported w) index items rows /\
    (2 * List.length items <= List.length (lookups evs) <= 3 * List.length items)%nat.
Proof.
  induction items as [|it rest IH]; intros Hall Hparse index.
  - exists [], []. split; [apply runs_to_ret|]. split; [constructor | simpl; lia].
  - destruct (http (service it)) as [h|] eqn:Hh.
    2:{ specialize (Hall it (or_introl eq_refl)). unfold has_http in Hall.
        rewrite Hh in Hall. discriminate. }
    destruct (export_item_account index it h Hh
                (Hparse it h (or_introl eq_refl) Hh))
      as (r & evs1 & Hr & Hex & Hl1).
    destruct (IH (fun it' H => Hall it' (or_intror H))
                 (probes_parse_tail w _ _ Hparse) (index + 1))
      as (evs & rows & Hrun & Hrows & Hl).
    exists (evs1 ++ evs ++ []), (r :: rows). split; [|split].
    + simpl export_loop. eapply runs_to_bind; [exact Hr|].
      eapply runs_to_bind; [exact Hrun | apply runs_to_ret].
    + now constructor.
    + rewrite app_nil_r, lookups_app, length_app. simpl List.length. lia.
Qed.

Lemma sheet_writable_dec query_term :
  sheet_writable w query_term \/ ~ sheet_writable w query_term.
Proof.
  unfold sheet_writable.
  destruct (to_excel_fails w _); [right; discriminate | now left].
Qed.


(** X12.  When [export_to_excel] returns, it has written one file, as the
    last thing before its closing message, with one row for each record
    of the page, in order, numbered 1 to N and carrying the hostname, IP
    and port of the record.  Before that it has made two or three lookups
    for each record (the geolocation requests and the probe) and, unlike
    the table, no DNS lookup. *)
Theorem export_to_excel_rows
        (resp : api_response) (query_term : string) (evs : list event) :
  runs_to (export_to_excel w resp query_term) (inr tt) evs ->
  exists evs' rows,
    evs = evs' ++
          [EvToExcel (os_path_join (getcwd w) (export_file_name query_term)) rows;
           EvPrint (MsgExported (export_file_name query_term))] /\
    map r_index rows = map Z.of_nat (seq 1 (List.length (data resp))) /\
    Forall2 row_of_item (data resp) rows /\
    Forall (fun ev => enrichment_event ev = true) evs' /\
    (forall hostname, ~ In (EvResolve hostname) evs) /\
    (2 * List.length (data resp) <= List.length (lookups evs')
     <= 3 * List.length (data resp))%nat.
Proof.
  intros Hrun.
  destruct (export_loop_outcome w (data resp) 0) as ([e|rows0] & evs0 & Hloop0 & Hr).
  { exfalso.
    pose proof (export_to_excel_of_loop_raise w resp query_term _ _ Hloop0) as Hraise.
    destruct (runs_to_fun _ _ _ _ _ Hrun Hraise) as [E _]. discriminate. }
  destruct Hr as (Hall & Hp & _).
  destruct (sheet_writable_dec query_term) as [Hw|Hw].
  2:{ exfalso.
      pose proof (export_to_excel_of_loop_oserror w resp query_term _ _ Hw Hloop0)
        as Hraise.
      destruct (runs_to_fun _ _ _ _ _ Hrun Hraise) as [E _]. discriminate. }
  destruct (export_loop_account _ Hall Hp 0) as (evs' & rows & Hloop & Hrows & Hl).
  pose proof (export_to_excel_of_loop w resp query_term _ _ Hw Hloop) as Hret.
  destruct (runs_to_fun _ _ _ _ _ Hrun Hret) as [_ ->].
  pose proof (emits_only_runs _ _ _ _ (emits_export_loop w (data resp) 0) Hloop)
    as Hev.
  destruct (exported_rows _ 0%nat _ Hrows) as [Hidx Hraw].
  exists evs', rows.
  split; [reflexivity|]. split; [exact Hidx|]. split; [exact Hraw|].
  split; [exact Hev|]. split; [|exact Hl].
  intros hostname Hin. apply in_app_or in Hin as [Hin|Hin].
  - rewrite Forall_forall in Hev. specialize (Hev _ Hin). discriminate.
  - destruct Hin as [Hin|[Hin|[]]]; discriminate.
Qed.

End SheetProperties.

Lemma rows_to_insert_valid (items : list item) :
  (forall it, In it items -> has_http it = true) ->
  exists rows, rows_to_insert items = inr rows /\ Forall2 db_row_of_item items rows.
Proof.
  induction items as [|it rest IH]; intros Hall.
  - exists []. split; [reflexivity | constructor].
  - destruct (IH (fun it' H => Hall it' (or_intror H))) as (rows & Hrows & Hall2).
    specialize (Hall it (or_introl eq_refl)). unfold has_http in Hall.
    destruct (http (service it)) as [h|] eqn:Hh; [|discriminate].
    exists ((host h, ip it, port it) :: rows). split.
    + simpl. unfold item_host. now rewrite Hh, Hrows.
    + constructor; [|exact Hall2].
      unfold db_row_of_item, item_host. rewrite Hh. simpl. auto.
Qed.

(** X13.  [store_to_database] is all or nothing.  Either every record of
    the page has the http block, and it inserts one row for each record,
    in order, with the hostname, IP and port of the record, in a single
    batch that it then commits; or some record lacks the block, and it
    raises [KeyError] before it has touched the database. *)
Theorem store_to_database_all_or_nothing (results : list item) :
  ((forall it, In it results -> has_http it = true) /\
   exists rows,
     runs_to (store_to_database results) (inr tt) [EvExecuteMany rows; EvCommit] /\
     Forall2 db_row_of_item results rows) \/
  ((exists it, In it results /\ has_http it = false) /\
   runs_to (store_to_database results) (inl (KeyError "http")) []).
Proof.
  destruct (all_valid_or_invalid results) as [Hall|Hbad].
  - left. split; [exact Hall|].
    destruct (rows_to_insert_valid _ Hall) as (rows & Hrows & Hraw).
    exists rows. split; [now apply store_to_database_rows | exact Hraw].
  - right. split; [exact Hbad | now apply store_to_database_keyerror].
Qed.

(** The page [A; B; C]: B lacks the block, nothing is inserted. *)
Lemma store_to_database_all_or_nothing_witness :
  runs_to (store_to_database [item_A; item_B; item_C]) (inl (KeyError "http")) [].
Proof.
  destruct (store_to_database_all_or_nothing [item_A; item_B; item_C])
    as [[Hall _]|[_ H]]; [|exact H].
  specialize (Hall item_B (or_intror (or_introl eq_refl))). discriminate.
Defined.


(** The spreadsheet of the page [A; C]. *)
Lemma export_to_excel_rows_witness :
  exists rows,
    map r_index rows = [1; 2] /\ Forall2 row_of_item [item_A; item_C] rows.
Proof.
  destruct (framed_export_to_excel demo_world (demo_page [item_A; item_C]) "q")
    as (r & evs & H).
  pose proof (H []) as E. vm_compute in E. injection E as <- <-.
  destruct (export_to_excel_rows demo_world _ _ _ H)
    as (evs' & rows & _ & Hidx & Hraw & _).
  exists rows. split; [exact Hidx | exact Hraw].
Defined.

(* ================================================================== *)
(** ** Further properties: the whole run *)

Lemma filter_no_write (evs : list event) :
  Forall (fun ev => record_write ev = false) evs -> filter record_write evs = [].
Proof.
  induction 1 as [|ev evs Hev _ IH]; simpl; [reflexivity|]. now rewrite Hev.
Qed.

Section Main.

Variable w : World.
Variable api_key : string.

Lemma emits_display_item index it table :
  emits_only display_event (display_item w index it table).
Proof.
  unfold display_item.
  pose proof (fun h => emits_only_weaken _ _ _ record_display_event
                         (emits_display_cdn_provider w h)).
  pose proof (fun i => emits_only_weaken _ _ _
                         (fun ev H => record_display_event ev
                                        (enrichment_record_event ev H))
                         (emits_get_ip_location w i)).
  auto 8 with emits.
Qed.

Lemma emits_display_loop items :
  forall index table, emits_only display_event (display_loop w index items table).
Proof.
  induction items as [|it rest IH]; intros index table; simpl.
  - apply emits_only_ret.
  - apply emits_only_bind; [apply emits_display_item | intros table'; apply IH].
Qed.

(** Whatever [display_results] does, it inserts no row and writes no
    spreadsheet. *)
Lemma display_results_no_write resp start_page result_count query_term r evs :
  runs_to (display_results w resp start_page result_count query_term) r evs ->
  Forall (fun ev => record_write ev = false) evs.
Proof.
  intros Hrun.
  destruct (emits_display_loop (data resp) 1 []) as (r' & evs' & Hloop & Hev).
  assert (Hnw : Forall (fun ev => record_write ev = false) evs')
    by (eapply Forall_impl; [|exact Hev]; apply display_event_no_write).
  destruct r' as [e|table].
  - pose proof (display_results_of_loop_raise w resp start_page result_count
                  query_term _ _ Hloop) as H.
    destruct (runs_to_fun _ _ _ _ _ Hrun H) as [_ ->].
    repeat (constructor; [reflexivity|]). exact Hnw.
  - pose proof (display_results_of_loop w resp start_page result_count
                  query_term _ _ Hloop) as H.
    destruct (runs_to_fun _ _ _ _ _ Hrun H) as [_ ->].
    apply Forall_app. split; [|repeat constructor].
    repeat (constructor; [reflexivity|]). exact Hnw.
Qed.

(** The search raises one of three kinds of errors, or returns; it writes
    nothing. *)
Lemma perform_search_account query result_count start_page :
  exists r evs,
    runs_to (perform_search w api_key query result_count start_page) r evs /\
    Forall (fun ev => record_write ev = false) evs /\
    match r with inl e => main_exception e /\ e <> OSError | inr _ => True end.
Proof.
  unfold perform_search.
  set (payload := {| p_query := query; p_start := start_page;
                     p_size := result_count |}).
  destruct (requests_post w quake_url api_key payload) as [f|r] eqn:Hpost.
  { eexists _, _. split; [intros tr; run; rewrite Hpost; run; cbn [is_request_exception]; run; rewrite <- ?app_assoc; reflexivity|].
    split; [repeat constructor | split; [exact I | discriminate]]. }
  destruct ((400 <=? sr_status_code r) && (sr_status_code r <? 600)) eqn:Hst.
  { eexists _, _. split; [intros tr; run; rewrite Hpost, Hst; run; cbn [is_request_exception]; run; rewrite <- ?app_assoc; reflexivity|].
    split; [repeat constructor | split; [exact I | discriminate]]. }
  destruct (sr_json r) as [page|] eqn:Hj.
  - eexists _, _. split; [intros tr; run; rewrite Hpost, Hst, Hj; run; cbn [is_request_exception]; run; rewrite <- ?app_assoc; reflexivity|].
    split; [repeat constructor | exact I].
  - eexists _, _. split; [intros tr; run; rewrite Hpost, Hst, Hj; run; cbn [is_request_exception]; run; rewrite <- ?app_assoc; reflexivity|].
    split; [repeat constructor | split; [exact I | discriminate]].
Qed.

Lemma main_usage a :
  search a = None \/ search a = Some "" ->
  runs_to (main w api_key a) (inr tt) [EvPrint MsgUsage].
Proof.
  intros [H|H] tr; unfold main; rewrite H; reflexivity.
Qed.

Lemma main_search_raises a query e evs :
  search a = Some query -> query <> "" ->
  runs_to (perform_search w api_key query (size a) (page a)) (inl e) evs ->
  runs_to (main w api_key a) (inl e) evs.
Proof.
  intros Hs Hq Hsearch tr. unfold main. rewrite Hs.
  apply String.eqb_neq in Hq. rewrite Hq. run. now rewrite Hsearch.
Qed.

Lemma main_display_raises a query resp evs0 e evs1 :
  search a = Some query -> query <> "" ->
  runs_to (perform_search w api_key query (size a) (page a)) (inr resp) evs0 ->
  runs_to (display_results w resp (page a) (size a) query) (inl e) evs1 ->
  runs_to (main w api_key a) (inl e) (evs0 ++ evs1).
Proof.
  intros Hs Hq Hsearch Hdisplay tr. unfold main. rewrite Hs.
  apply String.eqb_neq in Hq. rewrite Hq. run.
  rewrite Hsearch, Hdisplay. closes.
Qed.

Lemma main_returns a query resp evs0 evs1 evs2 evs3 :
  search a = Some query -> query <> "" ->
  runs_to (perform_search w api_key query (size a) (page a)) (inr resp) evs0 ->
  runs_to (display_results w resp (page a) (size a) query) (inr tt) evs1 ->
  runs_to (store_to_database (data resp)) (inr tt) evs2 ->
  runs_to (export_to_excel w resp query) (inr tt) evs3 ->
  runs_to (main w api_key a) (inr tt)
          (evs0 ++ evs1 ++
           [EvDbConnect "quake_results.db"; EvCreateTable; EvCommit] ++
           evs2 ++ evs3 ++ [EvPrint (MsgExported (export_file_name query))]).
Proof.
  intros Hs Hq Hsearch Hdisplay Hstore Hexport tr. unfold main. rewrite Hs.
  apply String.eqb_neq in Hq. rewrite Hq. run.
  rewrite Hsearch, Hdisplay. unfold connect_to_database. run.
  rewrite Hstore, Hexport. closes.
Qed.

Lemma main_export_raises a query resp evs0 evs1 evs2 e evs3 :
  search a = Some query -> query <> "" ->
  runs_to (perform_search w api_key query (size a) (page a)) (inr resp) evs0 ->
  runs_to (display_results w resp (page a) (size a) query) (inr tt) evs1 ->
  runs_to (store_to_database (data resp)) (inr tt) evs2 ->
  runs_to (export_to_excel w resp query) (inl e) evs3 ->
  runs_to (main w api_key a) (inl e)
          (evs0 ++ evs1 ++
           [EvDbConnect "quake_results.db"; EvCreateTable; EvCommit] ++
           evs2 ++ evs3).
Proof.
  intros Hs Hq Hsearch Hdisplay Hstore Hexport tr. unfold main. rewrite Hs.
  apply String.eqb_neq in Hq. rewrite Hq. run.
  rewrite Hsearch, Hdisplay. unfold connect_to_database. run.
  rewrite Hstore, Hexport. closes.
Qed.



End Main.



(* ================================================================== *)
(** ** Further properties: the name of the spreadsheet *)

Lemma concat_chars_clean (s : string) :
  forall c, In c (list_ascii_of_string (concat_chars filename_char s)) ->
            c <> " "%char /\ c <> ":"%char /\ c <> dquote.
Proof.
  induction s as [|x t IH]; simpl; [intros c []|].
  intros c Hc. apply in_chars_append in Hc as [Hc|Hc].
  - apply filename_char_kept in Hc. tauto.
  - now apply IH.
Qed.

Lemma concat_chars_fixed (s : string) :
  (forall c, In c (list_ascii_of_string s) ->
             c <> " "%char /\ c <> ":"%char /\ c <> dquote) ->
  concat_chars filename_char s = s.
Proof.
  induction s as [|x t IH]; simpl; [reflexivity|].
  intros H. destruct (H x (or_introl eq_refl)) as (H1 & H2 & H3).
  rewrite filename_char_other by assumption. simpl. f_equal.
  apply IH. intros c Hc. apply H. now right.
Qed.

Lemma length_string_append (a b : string) :
  String.length (a ++ b) = (String.length a + String.length b)%nat.
Proof. induction a as [|c a IH]; simpl; [reflexivity | now rewrite IH]. Qed.

Lemma filename_char_length (c : ascii) : (String.length (filename_char c) <= 1)%nat.
Proof.
  unfold filename_char.
  destruct (Ascii.eqb c " "); [simpl; lia|].
  destruct (Ascii.eqb c ":"); [simpl; lia|].
  destruct (Ascii.eqb c dquote); simpl; lia.
Qed.

(** X16.  Cleaning the query for the file name is idempotent and never
    lengthens it.  So a query and its cleaned form, which differ as soon
    as the query has a space, a colon or a double quote, name the same
    spreadsheet: the later export overwrites the earlier one. *)
Theorem query_filename_idempotent (query_term : string) :
  query_filename (query_filename query_term) = query_filename query_term /\
  (String.length (query_filename query_term) <= String.length query_term)%nat /\
  export_file_name (query_filename query_term) = export_file_name query_term /\
  (query_filename query_term = query_term <->
   forall c, In c (list_ascii_of_string query_term) ->
             c <> " "%char /\ c <> ":"%char /\ c <> dquote).
Proof.
  assert (Hidem : query_filename (query_filename query_term) =
                  query_filename query_term).
  { rewrite (query_filename_one_pass (query_filename query_term)).
    apply concat_chars_fixed. rewrite query_filename_one_pass.
    apply concat_chars_clean. }
  split; [exact Hidem|]. split; [|split].
  - rewrite query_filename_one_pass. clear Hidem.
    induction query_term as [|c t IH]; [simpl; lia|].
    cbn [concat_chars]. rewrite length_string_append. cbn [String.length].
    pose proof (filename_char_length c). lia.
  - unfold export_file_name. now rewrite Hidem.
  - split.
    + intros H. rewrite <- H, query_filename_one_pass. apply concat_chars_clean.
    + intros H. rewrite query_filename_one_pass. now apply concat_chars_fixed.
Qed.

(** The queries [a b:c] and [a_bc] name the same file; [a-b.com] is its
    own cleaned form. *)
Lemma query_filename_idempotent_witness :
  export_file_name (query_filename "a b:c") = export_file_name "a b:c" /\
  query_filename "a-b.com" = "a-b.com".
Proof.
  split.
  - exact (proj1 (proj2 (proj2 (query_filename_idempotent "a b:c")))).
  - apply (proj2 (proj2 (proj2 (proj2 (query_filename_idempotent "a-b.com"))))).
    intros c Hc. simpl in Hc.
    repeat (destruct Hc as [<-|Hc]; [repeat split; discriminate|]). destruct Hc.
Defined.
